(** * Shallow embedding of [prepdocslib/textsplitter.py]

    Python strings are sequences of Unicode code points; a text is modelled
    as [list Z], one code point per element.  Python slicing [t[a:b]] with
    non-negative bounds is [firstn]/[skipn].  The external token counter
    ([len(bpe.encode(text))]) is a parameter [count_tokens]; the
    tabulate-based rendering of the Excel splitter is a parameter as well. *)

From Stdlib Require Import String Ascii ZArith List Bool Lia.
Import ListNotations.

Open Scope Z_scope.

(** ** Characters and the fixed boundary sets *)

Definition char := Z.
Definition text_t := list char.

(** Code points of an ASCII string literal (used to write concrete inputs). *)
Definition cps (s : string) : text_t :=
  map (fun a => Z.of_nat (nat_of_ascii a)) (list_ascii_of_string s).

(** [STANDARD_WORD_BREAKS]: , ; : space ( ) [ ] { } \t \n *)
Definition STANDARD_WORD_BREAKS : list char :=
  [44; 59; 58; 32; 40; 41; 91; 93; 123; 125; 9; 10].

(** [CJK_WORD_BREAKS], in source order. *)
Definition CJK_WORD_BREAKS : list char :=
  [0x3001; 0xff0c; 0xff1b; 0xff1a; 0xff08; 0xff09; 0x3010; 0x3011; 0x300c;
   0x300d; 0x300e; 0x300f; 0x3014; 0x3015; 0x3008; 0x3009; 0x300a; 0x300b;
   0x3016; 0x3017; 0x3018; 0x3019; 0x301a; 0x301b; 0x301d; 0x301e; 0x301f;
   0x3030; 0x2013; 0x2014; 0x2018; 0x2019; 0x201a; 0x201b; 0x201c; 0x201d;
   0x201e; 0x201f; 0x2039; 0x203a].

(** [STANDARD_SENTENCE_ENDINGS]: . ! ? *)
Definition STANDARD_SENTENCE_ENDINGS : list char := [46; 33; 63].

(** [CJK_SENTENCE_ENDINGS]. *)
Definition CJK_SENTENCE_ENDINGS : list char :=
  [0x3002; 0xff01; 0xff1f; 0x203c; 0x2047; 0x2048; 0x2049].

(** [self.sentence_endings] and [self.word_breaks] of [SentenceTextSplitter]. *)
Definition sentence_endings : list char :=
  STANDARD_SENTENCE_ENDINGS ++ CJK_SENTENCE_ENDINGS.
Definition word_breaks : list char := STANDARD_WORD_BREAKS ++ CJK_WORD_BREAKS.

Definition py_in (c : char) (l : list char) : bool := existsb (Z.eqb c) l.

(** Python's [str.isspace] characters, i.e. what [str.strip] removes. *)
Definition py_whitespace : list char :=
  [9; 10; 11; 12; 13; 28; 29; 30; 31; 32; 0x85; 0xa0; 0x1680;
   0x2000; 0x2001; 0x2002; 0x2003; 0x2004; 0x2005; 0x2006; 0x2007; 0x2008;
   0x2009; 0x200a; 0x2028; 0x2029; 0x202f; 0x205f; 0x3000].

(** [len(t.strip()) == 0]. *)
Definition strip_is_empty (t : text_t) : bool :=
  forallb (fun c => py_in c py_whitespace) t.

(** Python [t[i]] for an integer index: negative indices count from the end,
    anything else out of range raises [IndexError] ([None]). *)
Definition py_getitem (t : text_t) (i : Z) : option char :=
  let n := Z.of_nat (length t) in
  if (0 <=? i) && (i <? n) then nth_error t (Z.to_nat i)
  else if (- n <=? i) && (i <? 0) then nth_error t (Z.to_nat (i + n))
  else None.

(** Python [t[a:b]] for [0 <= a], [0 <= b]. *)
Definition slice (a b : nat) (t : text_t) : text_t := firstn (b - a) (skipn a t).

(** ** Data model ([page.py]) *)

(** A page identifier is an integer (documents) or a sheet name (workbooks). *)
Inductive page_id :=
| PageNo (n : Z)
| SheetName (s : string).

Record Page := mkPage { page_num : page_id; offset : Z; text : text_t }.

Record SplitPage := mkSplitPage { sp_page_num : page_id; sp_text : text_t }.

(** Constants of the module and of [SentenceTextSplitter.__init__]. *)
Definition DEFAULT_OVERLAP_PERCENT : nat := 10.
Definition DEFAULT_SECTION_LENGTH : nat := 1000.
Definition max_section_length : nat := DEFAULT_SECTION_LENGTH.
Definition sentence_search_limit : nat := 100.
(** [int(1000 * 10 / 100)] *)
Definition section_overlap : nat :=
  (max_section_length * DEFAULT_OVERLAP_PERCENT / 100)%nat.

(** How a (fuel-bounded) run of a generator ended: it returned, it was cut
    off by the fuel bound (the recursion/loop was still going), or it raised. *)
Inductive outcome := Finished | OutOfFuel | Raised.

(** ** [SentenceTextSplitter.split_page_by_max_tokens] *)

(** The spiral search of lines 112-124:
    [while start - pos > boundary: if text[start-pos] in endings ... elif
    text[start+pos] in endings ... else pos += 1].  [None] is an
    [IndexError]; [Some (-1)] means no sentence ending was found.  The loop
    runs at most [start - boundary] times, so [k] never runs out first. *)
Fixpoint spiral (k : nat) (t : text_t) (start boundary pos : Z) : option Z :=
  match k with
  | O => Some (-1)
  | S k' =>
      if boundary <? start - pos then
        match py_getitem t (start - pos) with
        | None => None
        | Some c =>
            if py_in c sentence_endings then Some (start - pos)
            else match py_getitem t (start + pos) with
                 | None => None
                 | Some c' =>
                     if py_in c' sentence_endings then Some (start + pos)
                     else spiral k' t start boundary (pos + 1)
                 end
        end
      else Some (-1)
  end.

Definition spiral_start (t : text_t) : Z := Z.of_nat (length t) / 2.
Definition spiral_boundary (t : text_t) : Z := Z.of_nat (length t) / 3.

Definition split_position (t : text_t) : option Z :=
  spiral (S (length t / 2)) t (spiral_start t) (spiral_boundary t) 0.

(** Lines 126-135: the two halves recursed on.  [int(len * (10/100))] is
    [len / 10] for every length a string can have. *)
Definition halves (t : text_t) : option (text_t * text_t) :=
  match split_position t with
  | None => None
  | Some sp =>
      if 0 <? sp then
        Some (firstn (Z.to_nat sp + 1) t, skipn (Z.to_nat sp + 1) t)
      else
        let middle := (length t / 2)%nat in
        let overlap := (length t * DEFAULT_OVERLAP_PERCENT / 100)%nat in
        Some (firstn (middle + overlap) t, skipn (middle - overlap) t)
  end.

Section TokenSplitter.

Variable count_tokens : text_t -> nat.
Variable max_tokens_per_section : Z.

(** The generator, run with a recursion-depth bound [fuel]: the fragments
    it yields, in order, and how the run ended. *)
Fixpoint split_page_by_max_tokens (fuel : nat) (pn : page_id) (t : text_t)
  : list SplitPage * outcome :=
  match fuel with
  | O => ([], OutOfFuel)
  | S f =>
      if Z.of_nat (count_tokens t) <=? max_tokens_per_section then
        ([mkSplitPage pn t], Finished)
      else
        match halves t with
        | None => ([], Raised)
        | Some (first_half, second_half) =>
            let '(o1, r1) := split_page_by_max_tokens f pn first_half in
            match r1 with
            | Finished =>
                let '(o2, r2) := split_page_by_max_tokens f pn second_half in
                (o1 ++ o2, r2)
            | _ => (o1, r1)
            end
        end
  end.

End TokenSplitter.

(** ** [SentenceTextSplitter.split_pages] *)

Open Scope nat_scope.

(** [find_page]: [for i in range(num_pages - 1): if offset >= pages[i].offset
    and offset < pages[i + 1].offset: return pages[i].page_num], then
    [return pages[num_pages - 1].page_num]; on an empty list [pages[-1]]
    raises ([None]). *)
Fixpoint find_page (pages : list Page) (o : Z) : option page_id :=
  match pages with
  | [] => None
  | [p] => Some (page_num p)
  | p :: ((q :: _) as rest) =>
      if ((offset p <=? o) && (o <? offset q))%Z then Some (page_num p)
      else find_page rest o
  end.

(** [all_text = "".join(page.text for page in pages)] *)
Definition all_text_of (pages : list Page) : text_t := concat (map text pages).

(** [all_text[i]] at an index the loops only reach inside [0, length). *)
Definition char_at (t : text_t) (i : nat) : char := nth i t 0%Z.

(** Lines 166-173: the forward search for a sentence ending; returns the new
    [end] and [last_word].  It runs at most [sentence_search_limit] times. *)
Fixpoint scan_end (k : nat) (t : text_t) (len start e : nat) (last_word : Z)
  : nat * Z :=
  match k with
  | O => (e, last_word)
  | S k' =>
      if (e <? len) && (e <? start + max_section_length + sentence_search_limit)
         && negb (py_in (char_at t e) sentence_endings)
      then scan_end k' t len start (e + 1)
             (if py_in (char_at t e) word_breaks then Z.of_nat e else last_word)
      else (e, last_word)
  end.

(** Lines 159-177: the end of the window starting at [start]. *)
Definition compute_end (t : text_t) (len start : nat) : nat :=
  let e0 := start + max_section_length in
  let e1 :=
    if len <? e0 then len
    else
      let '(e, last_word) :=
        scan_end (S sentence_search_limit) t len start e0 (-1)%Z in
      if (e <? len) && negb (py_in (char_at t e) sentence_endings)
         && (0 <? last_word)%Z
      then Z.to_nat last_word else e in
  if e1 <? len then e1 + 1 else e1.

(** Lines 181-188: the backward search; [start > end - max_section_length -
    2 * sentence_search_limit] is written without subtraction. *)
Fixpoint scan_start (k : nat) (t : text_t) (e s : nat) (last_word : Z)
  : nat * Z :=
  match k with
  | O => (s, last_word)
  | S k' =>
      if (0 <? s) && (e <? s + max_section_length + 2 * sentence_search_limit)
         && negb (py_in (char_at t s) sentence_endings)
      then scan_start k' t e (s - 1)
             (if py_in (char_at t s) word_breaks then Z.of_nat s else last_word)
      else (s, last_word)
  end.

(** Lines 180-192: the realigned start of the window ending at [e]. *)
Definition compute_start (t : text_t) (e start : nat) : nat :=
  let '(s1, last_word) := scan_start (S start) t e start (-1)%Z in
  let s2 :=
    if negb (py_in (char_at t s1) sentence_endings) && (0 <? last_word)%Z
    then Z.to_nat last_word else s1 in
  if 0 <? s2 then s2 + 1 else s2.

Fixpoint is_prefix (p t : text_t) : bool :=
  match p, t with
  | [], _ => true
  | a :: p', b :: t' => Z.eqb a b && is_prefix p' t'
  | _ :: _, [] => false
  end.

(** Python [t.rfind(p)]: the largest index where [p] occurs, or [-1]. *)
Definition rfind (t p : text_t) : Z :=
  fold_left (fun acc i => if is_prefix p (skipn i t) then Z.of_nat i else acc)
    (seq 0 (S (length t))) (-1)%Z.

Definition FIGURE_OPEN : text_t := cps "<figure".
Definition FIGURE_CLOSE : text_t := cps "</figure".

(** Lines 197-207: the start of the next window, from the emitted window
    [[s, e)]. *)
Definition next_start (t : text_t) (s e : nat) : nat :=
  let section_text := slice s e t in
  let last_figure_start := rfind section_text FIGURE_OPEN in
  if (Z.of_nat (2 * sentence_search_limit) <? last_figure_start)%Z
     && (rfind section_text FIGURE_CLOSE <? last_figure_start)%Z
  then Nat.min (e - section_overlap) (s + Z.to_nat last_figure_start)
  else e - section_overlap.

(** The [while start + self.section_overlap < length] loop, bounded by
    [fuel] iterations: the windows [(start, end)] it emits, how it ended,
    and the final values of [start] and [end]. *)
Fixpoint windows_loop (fuel : nat) (t : text_t) (len start end_ : nat)
  : list (nat * nat) * outcome * (nat * nat) :=
  match fuel with
  | O => ([], OutOfFuel, (start, end_))
  | S f =>
      if start + section_overlap <? len then
        let e := compute_end t len start in
        let s := compute_start t e start in
        let '(ws, r, fin) := windows_loop f t len (next_start t s e) e in
        ((s, e) :: ws, r, fin)
      else ([], Finished, (start, end_))
  end.

(** The windows handed to [split_page_by_max_tokens] by [split_pages], in
    order (lines 147-210).  Each iteration moves [start] forward, so [length]
    iterations are enough for the loop to finish. *)
Definition section_windows (t : text_t) : list (nat * nat) * outcome :=
  let len := length t in
  if strip_is_empty t then ([], Finished)
  else if len <=? max_section_length then ([(0, len)], Finished)
  else
    let '(ws, r, (s, e)) := windows_loop (S len) t len 0 len in
    match r with
    | Finished => (ws ++ (if s + section_overlap <? e then [(s, e)] else []), Finished)
    | _ => (ws, r)
    end.

Section SplitPages.

Variable count_tokens : text_t -> nat.
Variable max_tokens_per_section : Z.

(** Feeding each window to [split_page_by_max_tokens], tagged with
    [find_page(start)]. *)
Fixpoint run_windows (pages : list Page) (t : text_t) (ws : list (nat * nat))
  : list SplitPage * outcome :=
  match ws with
  | [] => ([], Finished)
  | (s, e) :: ws' =>
      let section_text := slice s e t in
      match find_page pages (Z.of_nat s) with
      | None => ([], Raised)
      | Some pn =>
          let '(o, r) :=
            split_page_by_max_tokens count_tokens max_tokens_per_section
              (S (length section_text)) pn section_text in
          match r with
          | Finished => let '(o', r') := run_windows pages t ws' in (o ++ o', r')
          | _ => (o, r)
          end
      end
  end.

Definition split_pages (pages : list Page) : list SplitPage * outcome :=
  let all_text := all_text_of pages in
  let '(ws, r) := section_windows all_text in
  let '(o, r') := run_windows pages all_text ws in
  (o, match r' with Finished => r | _ => r' end).

End SplitPages.

(** ** Fixed-size chunking: [for i in range(0, len(l), step): ... l[i:i + step]]

    The pairs [(i, l[i:i + step])] in iteration order, for [step > 0]; the
    loop runs at most [len(l)] times. *)
Fixpoint range_chunks {A} (fuel step i : nat) (l : list A) : list (nat * list A) :=
  match fuel with
  | O => []
  | S f =>
      if i <? length l then (i, firstn step (skipn i l)) :: range_chunks f step (i + step) l
      else []
  end.

Definition chunks {A} (step : nat) (l : list A) : list (nat * list A) :=
  range_chunks (length l) step 0 l.

(** ** [SimpleTextSplitter.split_pages]

    [max_object_length] is a natural number here; [range] with step [0]
    raises [ValueError] ([None]). *)
Definition simple_split_pages (max_object_length : nat) (pages : list Page)
  : option (list SplitPage) :=
  let all_text := all_text_of pages in
  let len := length all_text in
  if strip_is_empty all_text then Some []
  else if len <=? max_object_length then Some [mkSplitPage (PageNo 0) all_text]
  else if max_object_length =? 0 then None
  else Some (map (fun '(i, piece) =>
                    mkSplitPage (PageNo (Z.of_nat (i / max_object_length))) piece)
               (chunks max_object_length all_text)).

(** ** [ExcelSplitter]

    An openpyxl worksheet, as its first row and the rows below it, every
    cell holding [None] or a value, given by its [str()]. *)
Definition cell := option text_t.

Record Sheet := mkSheet {
  header_row : list cell;                 (** [sheet[1]] *)
  data_rows : list (list cell)            (** [sheet.iter_rows(min_row=2)] *)
}.

Record SheetPage := mkSheetPage { sheet_page_num : page_id; sheet : Sheet }.

(** [cell_value = "" if None; str(cell_value)] *)
Definition cell_text (c : cell) : text_t :=
  match c with None => [] | Some v => v end.

(** [ "".join(row_data).strip() == "" ] *)
Definition row_is_blank (row_data : list text_t) : bool :=
  strip_is_empty (concat row_data).

(** [get_sheet_data]: the non-blank data rows and the headers. *)
Definition get_sheet_data (s : Sheet) : list (list text_t) * list text_t :=
  let data := filter (fun row_data => negb (row_is_blank row_data))
                (map (map cell_text) (data_rows s)) in
  let headers := map cell_text (header_row s) in
  (data, headers).

(** [str(cell) if pd.notna(cell) else '']: after [get_sheet_data] every
    cell is a [str], for which [pd.notna] holds, so this is the identity. *)
Definition normalize_cell (c : text_t) : text_t := c.

Section Excel.

(** [clean_markdown_table(tabulate([headers] + chunk_rows, headers="firstrow",
    tablefmt="grid"))]: the rendering of one block (external library). *)
Variable render_table : list text_t -> list (list text_t) -> text_t.

Definition step := 50.

(** The inner loop of [split_pages] for one sheet page. *)
Definition sheet_fragments (sp : SheetPage) : list SplitPage :=
  let '(data, headers) := get_sheet_data (sheet sp) in
  let rows := data in
  map (fun '(_, chunk_rows) =>
         let chunk_rows := map (map normalize_cell) chunk_rows in
         mkSplitPage (sheet_page_num sp) (render_table headers chunk_rows))
    (chunks step rows).

Definition excel_split_pages (pages : list SheetPage) : list SplitPage :=
  flat_map sheet_fragments pages.

End Excel.

(** ** [ExcelSplitter.clean_markdown_table] *)

(** The line boundaries of [str.splitlines] other than [\r\n]:
    \n \v \f \r \x1c \x1d \x1e \x85 U+2028 U+2029. *)
Definition line_breaks : list char :=
  [10; 11; 12; 13; 28; 29; 30; 0x85; 0x2028; 0x2029]%Z.

(** [str.splitlines()]: [\r\n] is one boundary, and a boundary at the very
    end does not open an empty last line. *)
Fixpoint splitlines (t : text_t) : list text_t :=
  match t with
  | [] => []
  | c :: t' =>
      if (c =? 13)%Z then
        match t' with
        | d :: t'' => if (d =? 10)%Z then [] :: splitlines t'' else [] :: splitlines t'
        | [] => [] :: splitlines t'
        end
      else if py_in c line_breaks then [] :: splitlines t'
      else match splitlines t' with
           | [] => [[c]]
           | l :: ls => (c :: l) :: ls
           end
  end.

(** [str.strip()] with no argument: [lstrip], then the same from the right. *)
Fixpoint lstrip (t : text_t) : text_t :=
  match t with
  | [] => []
  | c :: t' => if py_in c py_whitespace then lstrip t' else t
  end.

Definition rstrip (t : text_t) : text_t := rev (lstrip (rev t)).

Definition strip (t : text_t) : text_t := rstrip (lstrip t).

(** [t.split(sep)] for a one-character separator. *)
Fixpoint split_on (sep : char) (t : text_t) : list text_t :=
  match t with
  | [] => [[]]
  | c :: t' =>
      if (c =? sep)%Z then [] :: split_on sep t'
      else match split_on sep t' with
           | [] => [[c]]
           | x :: xs => (c :: x) :: xs
           end
  end.

(** [l[1:-1]] *)
Definition inner {A} (l : list A) : list A := removelast (tl l).

(** [sep.join(l)] *)
Fixpoint join (sep : text_t) (l : list text_t) : text_t :=
  match l with
  | [] => []
  | [x] => x
  | x :: xs => x ++ sep ++ join sep xs
  end.

(** [set(line.strip()) <= set('-| ')] *)
Definition is_border_line (line : text_t) : bool :=
  forallb (fun c => py_in c (cps "-| ")) (strip line).

(** The body of the loop over [lines]: the line appended to [cleaned_lines]. *)
Definition clean_line (line : text_t) : text_t :=
  if is_border_line line then line
  else
    let cells := split_on 124%Z line in
    let stripped_cells := map strip (inner cells) in
    cps "| " ++ join (cps " | ") stripped_cells ++ cps " |".

Definition clean_markdown_table (table_str : text_t) : text_t :=
  join [10%Z] (map clean_line (splitlines table_str)).

(** ** [ExcelParser.parse] ([excelparser.py])

    A workbook as its sheets in [workbook.sheetnames] order, each with its
    name; every sheet becomes one page named after it (the [offset=None] of
    these pages is not read by [ExcelSplitter]). *)
Definition excel_parse (workbook : list (string * Sheet)) : list SheetPage :=
  map (fun '(sheet_name, s) => mkSheetPage (SheetName sheet_name) s) workbook.

(** Pages "in order": each page starts no earlier than the one before. *)
Fixpoint offsets_nondecreasing (pages : list Page) : Prop :=
  match pages with
  | p :: ((q :: _) as rest) => (offset p <= offset q)%Z /\ offsets_nondecreasing rest
  | _ => True
  end.

(** Concrete inputs. *)

(** 1100 characters with sentence endings at indices 901 and 1000. *)
Definition overlap_text : text_t :=
  repeat 97%Z 901 ++ [46%Z] ++ repeat 97%Z 98 ++ [46%Z] ++ repeat 97%Z 99.

(** An unterminated figure 250 characters into the text. *)
Definition figure_text : text_t := repeat 97%Z 250 ++ cps "<figure><p>x".

Definition hello_pages : list Page :=
  [mkPage (PageNo 0) 0 (cps "Hello world. "); mkPage (PageNo 1) 13 (cps "Bye now.")].

(** A sheet with header [A | B] and 120 non-blank data rows. *)
Definition sheet120 : Sheet :=
  mkSheet [Some (cps "A"); Some (cps "B")]
    (map (fun i => [Some (cps "x"); if Nat.even i then None else Some (cps "y")])
       (seq 0 120)).

(** A sheet whose only data row is blank: an empty cell and spaces. *)
Definition blank_sheet : Sheet :=
  mkSheet [Some (cps "A"); Some (cps "B")] [[None; Some (cps "   ")]].

(** 1500 characters: an unterminated figure at index 900 with no sentence
    ending or word break anywhere. *)
Definition loop_text : text_t := repeat 97%Z 900 ++ cps "<figure>" ++ repeat 97%Z 592.

(** 1200 characters of words and sentences, no figure. *)
Definition plain_text : text_t := concat (repeat (cps "Some words here. ") 70) ++ cps "End".

(** A two-line table in [tabulate]'s grid style. *)
Definition grid_table : text_t :=
  cps "+-----+" ++ [10%Z] ++ cps "|  a  |" ++ [10%Z] ++ cps "+=====+".

(** * Properties *)

(** ** The token-bounded recursive splitter *)

Module TokenSplit.

(** Claim C1: every fragment [split_page_by_max_tokens] yields, before it
    finishes, raises or is cut off, has a token count of at most
    [max_tokens_per_section]. *)
Theorem fragments_within_budget :
  forall count_tokens max_tokens_per_section fuel pn t,
    Forall (fun sp => (Z.of_nat (count_tokens (sp_text sp)) <= max_tokens_per_section)%Z)
      (fst (split_page_by_max_tokens count_tokens max_tokens_per_section fuel pn t)).
Proof.
  intros count_tokens mx fuel pn.
  induction fuel as [|f IH]; intros t; simpl.
  - constructor.
  - destruct (Z.leb_spec (Z.of_nat (count_tokens t)) mx) as [Hle|Hgt].
    + simpl. constructor; [exact Hle | constructor].
    + destruct (halves t) as [[a b]|]; simpl; [|constructor].
      specialize (IH a) as Ha.
      destruct (split_page_by_max_tokens count_tokens mx f pn a) as [o1 r1] eqn:E1.
      simpl in Ha.
      destruct r1; simpl; try exact Ha.
      specialize (IH b) as Hb.
      destruct (split_page_by_max_tokens count_tokens mx f pn b) as [o2 r2] eqn:E2.
      simpl in *. apply Forall_app; auto.
Qed.

(** Claim C2 fails on a one-character text.  With one token per character
    (which is what the encoder gives for [""]
    and ["a"]) and [max_tokens_per_section = 0], the splitter on the
    one-character text ["a"] never finishes: its fallback split makes the
    second half [text[0:]], the text itself, at every level. *)
Theorem single_char_never_finishes :
  forall fuel,
    snd (split_page_by_max_tokens (@length Z) 0%Z fuel (PageNo 0) (cps "a"))
    = OutOfFuel.
Proof.
  induction fuel as [|f IH]; [reflexivity|].
  destruct f as [|f']; [reflexivity|].
  change (split_page_by_max_tokens (@length Z) 0%Z (S (S f')) (PageNo 0) (cps "a"))
    with (let '(o2, r2) :=
            split_page_by_max_tokens (@length Z) 0%Z (S f') (PageNo 0) (cps "a") in
          (mkSplitPage (PageNo 0) [] :: o2, r2)).
  destruct (split_page_by_max_tokens (@length Z) 0%Z (S f') (PageNo 0) (cps "a"))
    as [o2 r2].
  exact IH.
Qed.

End TokenSplit.

(** ** The spiral search of [split_page_by_max_tokens] *)

Module Spiral.

Open Scope Z_scope.

Lemma py_getitem_in_range (t : text_t) (i : Z) :
  0 <= i < Z.of_nat (length t) -> py_getitem t i <> None.
Proof.
  intros [H0 H1]. unfold py_getitem.
  replace ((0 <=? i) && (i <? Z.of_nat (length t)))%bool with true
    by (symmetry; apply andb_true_iff; split; [apply Z.leb_le | apply Z.ltb_lt]; lia).
  apply nth_error_Some. lia.
Qed.

Lemma div_facts (n : Z) :
  0 <= n -> 0 <= n / 3 /\ 2 * (n / 2) <= n /\ 3 * (n / 3) <= n /\ n < 3 * (n / 3) + 3.
Proof.
  intros Hn.
  pose proof (Z.div_mod n 2 ltac:(lia)). pose proof (Z.mod_pos_bound n 2 ltac:(lia)).
  pose proof (Z.div_mod n 3 ltac:(lia)). pose proof (Z.mod_pos_bound n 3 ltac:(lia)).
  lia.
Qed.

(** Claim C9: whenever the guard [start - pos > boundary] of the search loop
    holds (with [start = len // 2], [boundary = len // 3], [pos >= 0]), both
    indices [start - pos] and [start + pos] it reads lie in [[0, len)]. *)
Theorem indices_in_bounds (t : text_t) (pos : Z) :
  0 <= pos ->
  spiral_boundary t < spiral_start t - pos ->
  0 <= spiral_start t - pos < Z.of_nat (length t) /\
  0 <= spiral_start t + pos < Z.of_nat (length t).
Proof.
  unfold spiral_boundary, spiral_start. intros Hpos Hg.
  pose proof (div_facts (Z.of_nat (length t)) ltac:(lia)). lia.
Qed.

Lemma indices_in_bounds_witness :
  (0 <= 1 /\ spiral_boundary (cps "abcdefghij") < spiral_start (cps "abcdefghij") - 1) /\
  (0 <= spiral_start (cps "abcdefghij") - 1 < Z.of_nat (length (cps "abcdefghij")) /\
   0 <= spiral_start (cps "abcdefghij") + 1 < Z.of_nat (length (cps "abcdefghij"))).
Proof.
  split; [split; [lia | vm_compute; reflexivity] |].
  apply (indices_in_bounds (cps "abcdefghij") 1); [lia | vm_compute; reflexivity].
Defined.

(** The search loop never raises, and what it returns is [-1] or a position
    strictly inside [(boundary, 2 * start - boundary)]. *)
Lemma spiral_range (t : text_t) (start boundary : Z) :
  0 <= boundary -> 2 * start <= Z.of_nat (length t) ->
  forall k pos, 0 <= pos ->
  exists sp, spiral k t start boundary pos = Some sp /\
             (sp = -1 \/ boundary < sp < 2 * start - boundary).
Proof.
  intros Hb Hs k. induction k as [|k IH]; intros pos Hpos; cbn [spiral].
  - exists (-1). auto.
  - destruct (Z.ltb_spec boundary (start - pos)) as [Hg|Hg]; [|exists (-1); auto].
    destruct (py_getitem t (start - pos)) as [c|] eqn:E1;
      [|exfalso; revert E1; apply py_getitem_in_range; lia].
    destruct (py_in c sentence_endings).
    + exists (start - pos). split; [reflexivity | right; lia].
    + destruct (py_getitem t (start + pos)) as [c'|] eqn:E2;
        [|exfalso; revert E2; apply py_getitem_in_range; lia].
      destruct (py_in c' sentence_endings).
      * exists (start + pos). split; [reflexivity | right; lia].
      * apply IH. lia.
Qed.

Lemma split_position_range (t : text_t) :
  exists sp, split_position t = Some sp /\
    (sp = -1 \/ spiral_boundary t < sp < 2 * spiral_start t - spiral_boundary t).
Proof.
  unfold split_position.
  pose proof (div_facts (Z.of_nat (length t)) ltac:(lia)).
  apply spiral_range; unfold spiral_boundary, spiral_start; lia.
Qed.

End Spiral.

(** ** When the token-bounded splitter terminates *)

Module Termination.

(** From three characters on, both halves are strictly shorter. *)
Lemma halves_shorter (t : text_t) :
  3 <= length t ->
  exists a b, halves t = Some (a, b) /\ length a < length t /\ length b < length t.
Proof.
  intros H3. unfold halves.
  destruct (Spiral.split_position_range t) as [sp [-> Hsp]].
  pose proof (Spiral.div_facts (Z.of_nat (length t)) ltac:(lia)) as Hd.
  unfold spiral_boundary, spiral_start in Hsp.
  assert (1 <= Z.of_nat (length t) / 3)%Z.
  { apply Z.div_le_lower_bound; lia. }
  destruct (Z.ltb_spec 0 sp) as [Hpos|Hneg].
  - do 2 eexists. split; [reflexivity|].
    rewrite length_firstn, length_skipn. lia.
  - do 2 eexists. split; [reflexivity|].
    rewrite length_firstn, length_skipn. unfold DEFAULT_OVERLAP_PERCENT.
    set (n := length t) in *.
    pose proof (Nat.div_mod n 2 ltac:(lia)). pose proof (Nat.mod_upper_bound n 2 ltac:(lia)).
    pose proof (Nat.div_mod (n * 10) 100 ltac:(lia)).
    pose proof (Nat.mod_upper_bound (n * 10) 100 ltac:(lia)).
    lia.
Qed.

(** If every text of at most two characters fits the budget, the splitter
    finishes on every text within [length t + 1] levels of recursion. *)
Lemma finishes_when_short_texts_fit count_tokens max_tokens_per_section :
  (forall u : text_t, length u <= 2 ->
     (Z.of_nat (count_tokens u) <= max_tokens_per_section)%Z) ->
  forall fuel pn t, length t < fuel ->
  snd (split_page_by_max_tokens count_tokens max_tokens_per_section fuel pn t)
  = Finished.
Proof.
  intros Hsmall fuel pn. induction fuel as [|f IH]; intros t Hf; [lia|].
  cbn [split_page_by_max_tokens].
  destruct (Z.leb_spec (Z.of_nat (count_tokens t)) max_tokens_per_section)
    as [Hle|Hgt]; [reflexivity|].
  assert (H3 : 3 <= length t).
  { destruct (Nat.le_gt_cases 3 (length t)) as [?|Hlt]; [assumption|].
    exfalso. specialize (Hsmall t ltac:(lia)). lia. }
  destruct (halves_shorter t H3) as [a [b [-> [Ha Hb]]]].
  specialize (IH a ltac:(lia)) as IHa.
  destruct (split_page_by_max_tokens count_tokens max_tokens_per_section f pn a)
    as [o1 r1]; simpl in IHa; subst r1.
  specialize (IH b ltac:(lia)) as IHb.
  destruct (split_page_by_max_tokens count_tokens max_tokens_per_section f pn b)
    as [o2 r2]; simpl in *; exact IHb.
Qed.

End Termination.

(** ** Page attribution ([find_page]) *)

Module FindPage.

Open Scope Z_scope.

Lemma head_le (q : Page) (rest : list Page) :
  offsets_nondecreasing (q :: rest) ->
  forall j x, nth_error (q :: rest) j = Some x -> offset q <= offset x.
Proof.
  revert q. induction rest as [|r rest IH]; intros q Hs j x Hj.
  - destruct j as [|[|j]]; simpl in Hj; try discriminate.
    injection Hj as <-. lia.
  - destruct Hs as [Hqr Hs].
    destruct j as [|j]; simpl in Hj.
    + injection Hj as <-. lia.
    + specialize (IH r Hs j x Hj). lia.
Qed.

Lemma find_page_range (pages : list Page) :
  offsets_nondecreasing pages ->
  forall i p q o, nth_error pages i = Some p -> nth_error pages (S i) = Some q ->
  offset p <= o < offset q -> find_page pages o = Some (page_num p).
Proof.
  induction pages as [|p0 ps IH]; intros Hs i p q o Hi Hsi Ho;
    [destruct i; discriminate|].
  destruct ps as [|q0 rest]; [destruct i; discriminate|].
  destruct Hs as [H01 Hs].
  change (find_page (p0 :: q0 :: rest) o) with
    (if ((offset p0 <=? o) && (o <? offset q0))%bool then Some (page_num p0)
     else find_page (q0 :: rest) o).
  destruct i as [|i].
  - simpl in Hi, Hsi. injection Hi as <-. injection Hsi as <-.
    replace ((offset p0 <=? o) && (o <? offset q0)) with true
      by (symmetry; apply andb_true_iff; split; [apply Z.leb_le | apply Z.ltb_lt]; lia).
    reflexivity.
  - simpl in Hi, Hsi.
    pose proof (head_le q0 rest Hs i p Hi).
    replace ((offset p0 <=? o) && (o <? offset q0)) with false
      by (symmetry; apply andb_false_iff; right; apply Z.ltb_ge; lia).
    exact (IH Hs i p q o Hi Hsi Ho).
Qed.

Lemma find_page_last (pages : list Page) :
  offsets_nondecreasing pages ->
  forall p o, nth_error pages (length pages - 1) = Some p -> offset p <= o ->
  find_page pages o = Some (page_num p).
Proof.
  induction pages as [|p0 ps IH]; intros Hs p o Hp Ho; [discriminate|].
  destruct ps as [|q0 rest].
  - simpl in Hp. injection Hp as <-. reflexivity.
  - destruct Hs as [H01 Hs].
    change (find_page (p0 :: q0 :: rest) o) with
      (if ((offset p0 <=? o) && (o <? offset q0))%bool then Some (page_num p0)
       else find_page (q0 :: rest) o).
    replace (length (p0 :: q0 :: rest) - 1)%nat
      with (S (length (q0 :: rest) - 1)) in Hp by (simpl; lia).
    simpl in Hp.
    pose proof (head_le q0 rest Hs _ p Hp).
    replace ((offset p0 <=? o) && (o <? offset q0)) with false
      by (symmetry; apply andb_false_iff; right; apply Z.ltb_ge; lia).
    apply IH; assumption.
Qed.

(** Claim C5, as the code does it: for pages with non-decreasing offsets,
    [find_page o] is the page whose range [[offset_i, offset_(i+1))] holds
    [o]; it is the last page for every [o] at or past the last start; and a
    page's own start offset is attributed to it when that page is the last
    one or its range is non-empty ([offset_i < offset_(i+1)]). *)
Theorem find_page_spec (pages : list Page) :
  offsets_nondecreasing pages ->
  (forall i p q o, nth_error pages i = Some p -> nth_error pages (S i) = Some q ->
     offset p <= o < offset q -> find_page pages o = Some (page_num p)) /\
  (forall p o, nth_error pages (length pages - 1) = Some p -> offset p <= o ->
     find_page pages o = Some (page_num p)) /\
  (forall i p, nth_error pages i = Some p ->
     (S i = length pages \/
      exists q, nth_error pages (S i) = Some q /\ offset p < offset q) ->
     find_page pages (offset p) = Some (page_num p)).
Proof.
  intros Hs. split; [|split].
  - apply find_page_range; assumption.
  - apply find_page_last; assumption.
  - intros i p Hi [Hlast | [q [Hq Hlt]]].
    + apply find_page_last; [assumption | | lia].
      replace (length pages - 1)%nat with i by lia. exact Hi.
    + apply (find_page_range pages Hs i p q); [assumption | assumption | lia].
Qed.

Lemma find_page_spec_witness :
  offsets_nondecreasing
    [mkPage (PageNo 0) 0 (cps "Hello world. "); mkPage (PageNo 1) 13 (cps "Bye now.")] /\
  find_page
    [mkPage (PageNo 0) 0 (cps "Hello world. "); mkPage (PageNo 1) 13 (cps "Bye now.")] 13
  = Some (PageNo 1).
Proof.
  split; [simpl; split; [lia | exact I]|].
  destruct (find_page_spec
              [mkPage (PageNo 0) 0 (cps "Hello world. "); mkPage (PageNo 1) 13 (cps "Bye now.")]
              ltac:(cbn; split; [lia | exact I])) as [_ [Hlast _]].
  apply (Hlast (mkPage (PageNo 1) 13 (cps "Bye now.")) 13); [reflexivity | simpl; lia].
Defined.

(** Claim C5 as stated fails for an empty page: pages in order whose first
    page is empty (both start at offset 0); offset 0, the first page's start
    offset, is attributed to the second page. *)
Lemma find_page_empty_page_counterexample :
  offsets_nondecreasing [mkPage (PageNo 0) 0 []; mkPage (PageNo 1) 0 (cps "abc")] /\
  find_page [mkPage (PageNo 0) 0 []; mkPage (PageNo 1) 0 (cps "abc")] 0
  <> Some (PageNo 0).
Proof.
  split; [simpl; split; [lia | exact I]|].
  vm_compute. discriminate.
Qed.

End FindPage.

(** ** Window edges of [split_pages] *)

Module Windows.

Lemma scan_end_spec (t : text_t) (len start : nat) :
  forall k e lw e1 lw1,
  scan_end k t len start e lw = (e1, lw1) ->
  e <= e1 /\
  (e <= start + max_section_length + sentence_search_limit ->
     e1 <= start + max_section_length + sentence_search_limit) /\
  (e <= len -> e1 <= len) /\
  (lw1 = lw \/ (Z.of_nat e <= lw1 < Z.of_nat e1)%Z).
Proof.
  induction k as [|k IH]; intros e lw e1 lw1 H; cbn [scan_end] in H.
  - injection H as <- <-. repeat split; auto.
  - destruct ((e <? len) && (e <? start + max_section_length + sentence_search_limit)
              && negb (py_in (char_at t e) sentence_endings)) eqn:G.
    + apply andb_true_iff in G as [G _]. apply andb_true_iff in G as [G1 G2].
      apply Nat.ltb_lt in G1, G2.
      apply IH in H as (H1 & H2 & H3 & H4).
      repeat split; try lia.
      destruct (py_in (char_at t e) word_breaks); destruct H4 as [->|H4]; lia.
    + injection H as <- <-. repeat split; auto.
Qed.

(** The end of a window lies between [min(start + 1000, len)] and
    [min(start + 1101, len)]. *)
Lemma compute_end_bounds (t : text_t) (len start : nat) :
  Nat.min (start + max_section_length) len <= compute_end t len start /\
  compute_end t len start <= start + max_section_length + sentence_search_limit + 1 /\
  compute_end t len start <= len.
Proof.
  unfold compute_end.
  destruct (Nat.ltb_spec len (start + max_section_length)) as [Hl|Hl].
  - rewrite Nat.ltb_irrefl. lia.
  - destruct (scan_end (S sentence_search_limit) t len start
                (start + max_section_length) (-1)%Z) as [e lw] eqn:E.
    apply scan_end_spec in E as (H1 & H2 & H3 & H4).
    specialize (H2 ltac:(lia)). specialize (H3 Hl).
    destruct ((e <? len) && negb (py_in (char_at t e) sentence_endings)
              && (0 <? lw)%Z) eqn:G.
    + apply andb_true_iff in G as [_ G]. apply Z.ltb_lt in G.
      destruct H4 as [->|H4]; [lia|].
      destruct (Nat.ltb_spec (Z.to_nat lw) len); lia.
    + destruct (Nat.ltb_spec e len); lia.
Qed.

Lemma scan_start_spec (t : text_t) (e : nat) :
  forall k s lw s1 lw1,
  scan_start k t e s lw = (s1, lw1) ->
  s1 <= s /\ (lw1 = lw \/ (0 <= lw1 <= Z.of_nat s)%Z).
Proof.
  induction k as [|k IH]; intros s lw s1 lw1 H; cbn [scan_start] in H.
  - injection H as <- <-. auto.
  - destruct ((0 <? s) && (e <? s + max_section_length + 2 * sentence_search_limit)
              && negb (py_in (char_at t s) sentence_endings)) eqn:G.
    + apply andb_true_iff in G as [G _]. apply andb_true_iff in G as [G1 _].
      apply Nat.ltb_lt in G1.
      apply IH in H as [H1 H2]. split; [lia|].
      destruct (py_in (char_at t s) word_breaks); destruct H2 as [->|H2]; lia.
    + injection H as <- <-. auto.
Qed.

Lemma scan_start_step (t : text_t) (e s k : nat) (lw : Z) :
  scan_start (S k) t e s lw =
  if (0 <? s) && (e <? s + max_section_length + 2 * sentence_search_limit)
     && negb (py_in (char_at t s) sentence_endings)
  then scan_start k t e (s - 1)
         (if py_in (char_at t s) word_breaks then Z.of_nat s else lw)
  else (s, lw).
Proof. reflexivity. Qed.

(** The realigned start is at most one past the start it was given. *)
Lemma compute_start_le_succ (t : text_t) (e s : nat) :
  compute_start t e s <= s + 1.
Proof.
  unfold compute_start.
  destruct (scan_start (S s) t e s (-1)%Z) as [s1 lw] eqn:E.
  apply scan_start_spec in E as [H1 H2].
  destruct (negb (py_in (char_at t s1) sentence_endings) && (0 <? lw)%Z) eqn:G.
  - apply andb_true_iff in G as [_ G]. apply Z.ltb_lt in G.
    destruct H2 as [->|H2]; [lia|].
    destruct (Nat.ltb_spec 0 (Z.to_nat lw)); lia.
  - destruct (Nat.ltb_spec 0 s1); lia.
Qed.

(** Started on a character that is neither a sentence ending nor a word
    break, the backward search never moves the start forward. *)
Lemma compute_start_le_self (t : text_t) (e s : nat) :
  py_in (char_at t s) sentence_endings = false ->
  py_in (char_at t s) word_breaks = false ->
  e < s + max_section_length + 2 * sentence_search_limit ->
  compute_start t e s <= s.
Proof.
  intros Hend Hbrk He. unfold compute_start.
  destruct s as [|s']; [simpl; rewrite andb_false_r; reflexivity|].
  rewrite scan_start_step.
  replace ((0 <? S s') && (e <? S s' + max_section_length + 2 * sentence_search_limit)
           && negb (py_in (char_at t (S s')) sentence_endings)) with true
    by (rewrite Hend; symmetry; apply andb_true_iff; split; [|reflexivity];
        apply andb_true_iff; split; apply Nat.ltb_lt; lia).
  rewrite Hbrk. change (if false then Z.of_nat (S s') else (-1)%Z) with (-1)%Z.
  destruct (scan_start (S s') t e (S s' - 1) (-1)%Z) as [s1 lw] eqn:E.
  apply scan_start_spec in E as [H1 H2].
  destruct (negb (py_in (char_at t s1) sentence_endings) && (0 <? lw)%Z) eqn:G.
  - apply andb_true_iff in G as [_ G]. apply Z.ltb_lt in G.
    destruct H2 as [->|H2]; [lia|].
    destruct (Nat.ltb_spec 0 (Z.to_nat lw)); lia.
  - destruct (Nat.ltb_spec 0 s1); lia.
Qed.

End Windows.

(** ** The unterminated-figure rule *)

Module Figure.

Lemma rfind_fold (t p : text_t) :
  forall l acc,
  fold_left (fun acc i => if is_prefix p (skipn i t) then Z.of_nat i else acc) l acc = acc \/
  exists j, fold_left (fun acc i => if is_prefix p (skipn i t) then Z.of_nat i else acc) l acc
            = Z.of_nat j /\ is_prefix p (skipn j t) = true.
Proof.
  induction l as [|x l IH]; intros acc; simpl; [left; reflexivity|].
  destruct (IH (if is_prefix p (skipn x t) then Z.of_nat x else acc)) as [H|H];
    [|right; exact H].
  rewrite H. destruct (is_prefix p (skipn x t)) eqn:E; [right; eauto | left; reflexivity].
Qed.

(** What [rfind] returns, when it is not [-1], is an occurrence. *)
Lemma rfind_found (t p : text_t) :
  (0 <= rfind t p)%Z -> is_prefix p (skipn (Z.to_nat (rfind t p)) t) = true.
Proof.
  unfold rfind. intros H.
  destruct (rfind_fold t p (seq 0 (S (length t))) (-1)%Z) as [E|[j [E Hj]]];
    rewrite E in *; [lia|].
  rewrite Nat2Z.id. exact Hj.
Qed.

Lemma is_prefix_firstn (p : text_t) :
  forall k l, is_prefix p (firstn k l) = true -> is_prefix p l = true.
Proof.
  induction p as [|a p IH]; intros k l H; [reflexivity|].
  destruct k as [|k]; [discriminate|].
  destruct l as [|b l]; [discriminate|].
  simpl in *. apply andb_true_iff in H as [H1 H2].
  rewrite H1. simpl. eapply IH. exact H2.
Qed.

(** Claim C3: when the last ["<figure"] of the emitted window [[s, e)] lies
    after its last ["</figure"] and more than [2 * sentence_search_limit]
    characters into the window, that tag sits at absolute position
    [s + last_figure_start], the start set for the next window is at or
    before it, and so is the start of the next window after its backward
    realignment. *)
Theorem figure_pulls_next_start_back (t : text_t) (len s e : nat) :
  (Z.of_nat (2 * sentence_search_limit) < rfind (slice s e t) FIGURE_OPEN)%Z ->
  (rfind (slice s e t) FIGURE_CLOSE < rfind (slice s e t) FIGURE_OPEN)%Z ->
  is_prefix FIGURE_OPEN (skipn (s + Z.to_nat (rfind (slice s e t) FIGURE_OPEN)) t) = true /\
  next_start t s e <= s + Z.to_nat (rfind (slice s e t) FIGURE_OPEN) /\
  compute_start t (compute_end t len (next_start t s e)) (next_start t s e)
    <= s + Z.to_nat (rfind (slice s e t) FIGURE_OPEN).
Proof.
  intros Hlim Hclose.
  set (lfs := rfind (slice s e t) FIGURE_OPEN) in *.
  assert (Hpre : is_prefix FIGURE_OPEN (skipn (s + Z.to_nat lfs) t) = true).
  { pose proof (rfind_found (slice s e t) FIGURE_OPEN ltac:(lia)) as H.
    fold lfs in H. unfold slice in H.
    rewrite skipn_firstn_comm, skipn_skipn in H.
    apply is_prefix_firstn in H. rewrite Nat.add_comm. exact H. }
  assert (Hns : next_start t s e =
                Nat.min (e - section_overlap) (s + Z.to_nat lfs)).
  { unfold next_start. fold lfs.
    replace ((Z.of_nat (2 * sentence_search_limit) <? lfs)%Z
             && (rfind (slice s e t) FIGURE_CLOSE <? lfs)%Z) with true
      by (symmetry; apply andb_true_iff; split; apply Z.ltb_lt; assumption).
    reflexivity. }
  split; [exact Hpre|]. rewrite Hns. split; [lia|].
  destruct (Nat.lt_ge_cases (e - section_overlap) (s + Z.to_nat lfs)) as [Hlt|Hge].
  - rewrite Nat.min_l by lia.
    pose proof (Windows.compute_start_le_succ t
                  (compute_end t len (e - section_overlap)) (e - section_overlap)).
    lia.
  - rewrite Nat.min_r by lia.
    assert (Hc : char_at t (s + Z.to_nat lfs) = 60%Z).
    { unfold char_at. rewrite <- (Nat.add_0_r (s + Z.to_nat lfs)), <- nth_skipn.
      destruct (skipn (s + Z.to_nat lfs) t) as [|c r]; [discriminate|].
      change FIGURE_OPEN with [60; 102; 105; 103; 117; 114; 101]%Z in Hpre.
      cbn [is_prefix nth] in Hpre |- *. apply andb_true_iff in Hpre as [Hpre _].
      apply Z.eqb_eq in Hpre. symmetry. exact Hpre. }
    apply Windows.compute_start_le_self; [rewrite Hc; reflexivity | rewrite Hc; reflexivity|].
    pose proof (Windows.compute_end_bounds t len (s + Z.to_nat lfs)) as (_ & Hb & _).
    unfold max_section_length, sentence_search_limit, DEFAULT_SECTION_LENGTH in *. lia.
Qed.

Lemma figure_pulls_next_start_back_witness :
  ((Z.of_nat (2 * sentence_search_limit)
    < rfind (slice 0 (length figure_text) figure_text) FIGURE_OPEN)%Z /\
   (rfind (slice 0 (length figure_text) figure_text) FIGURE_CLOSE
    < rfind (slice 0 (length figure_text) figure_text) FIGURE_OPEN)%Z) /\
  (is_prefix FIGURE_OPEN
     (skipn (0 + Z.to_nat (rfind (slice 0 (length figure_text) figure_text) FIGURE_OPEN))
        figure_text) = true /\
   next_start figure_text 0 (length figure_text)
     <= 0 + Z.to_nat (rfind (slice 0 (length figure_text) figure_text) FIGURE_OPEN) /\
   compute_start figure_text
     (compute_end figure_text (length figure_text)
        (next_start figure_text 0 (length figure_text)))
     (next_start figure_text 0 (length figure_text))
     <= 0 + Z.to_nat (rfind (slice 0 (length figure_text) figure_text) FIGURE_OPEN)).
Proof.
  split; [split; vm_compute; reflexivity|].
  apply (figure_pulls_next_start_back figure_text (length figure_text) 0 (length figure_text));
    vm_compute; reflexivity.
Defined.

End Figure.

(** ** Overlap of consecutive windows *)

Module Overlap.

(** The successor [w2] of window [w1] starts at least
    [section_overlap - 1] characters before [w1] ends. *)
Definition succ_overlaps (w1 w2 : nat * nat) : Prop :=
  fst w2 + (section_overlap - 1) <= snd w1.

Fixpoint chained (ws : list (nat * nat)) : Prop :=
  match ws with
  | w1 :: ((w2 :: _) as rest) => succ_overlaps w1 w2 /\ chained rest
  | _ => True
  end.

Lemma chained_nth (ws : list (nat * nat)) :
  chained ws -> forall i a b, nth_error ws i = Some a -> nth_error ws (S i) = Some b ->
  succ_overlaps a b.
Proof.
  induction ws as [|w ws IH]; intros Hc i a b Ha Hb; [destruct i; discriminate|].
  destruct ws as [|w' ws]; [destruct i as [|[]]; discriminate|].
  destruct Hc as [Hww' Hc]. destruct i as [|i].
  - simpl in Ha, Hb. injection Ha as <-. injection Hb as <-. exact Hww'.
  - exact (IH Hc i a b Ha Hb).
Qed.

Lemma chained_snoc (ws : list (nat * nat)) (w x : nat * nat) :
  chained (ws ++ [w]) -> succ_overlaps w x -> chained (ws ++ [w; x]).
Proof.
  induction ws as [|a ws IH]; intros Hc Hwx; simpl in *; [split; auto|].
  destruct ws as [|b ws]; simpl in *.
  - destruct Hc as [Haw _]. repeat split; auto.
  - destruct Hc as [Hab Hc]. split; [exact Hab | exact (IH Hc Hwx)].
Qed.

Lemma section_overlap_eq : section_overlap = 100.
Proof. reflexivity. Qed.

Lemma next_start_le (t : text_t) (s e : nat) : next_start t s e <= e - section_overlap.
Proof.
  unfold next_start.
  destruct (_ && _); lia.
Qed.

Lemma loop_shape (t : text_t) (len : nat) :
  forall fuel st en ws r fin,
  windows_loop fuel t len st en = (ws, r, fin) ->
  chained ws /\
  (forall w, In w ws -> section_overlap < snd w) /\
  (forall w ws', ws = w :: ws' -> fst w <= st + 1) /\
  (r = Finished ->
     (ws = [] /\ fin = (st, en)) \/
     exists ws' sk ek, ws = ws' ++ [(sk, ek)] /\ fin = (next_start t sk ek, ek)).
Proof.
  induction fuel as [|f IH]; intros st en ws r fin H; cbn [windows_loop] in H.
  - injection H as <- <- <-. repeat split; try discriminate; simpl; tauto.
  - destruct (Nat.ltb_spec (st + section_overlap) len) as [Hlt|Hge].
    + set (e := compute_end t len st) in H.
      set (s := compute_start t e st) in H.
      destruct (windows_loop f t len (next_start t s e) e) as [[ws0 r0] fin0] eqn:E.
      injection H as <- <- <-.
      apply IH in E as (Hc & Hin & Hhd & Hfin).
      assert (He : section_overlap < e).
      { pose proof (Windows.compute_end_bounds t len st) as (Hb & _).
        unfold e. unfold max_section_length, section_overlap, DEFAULT_SECTION_LENGTH,
          DEFAULT_OVERLAP_PERCENT in *. simpl in *. lia. }
      split; [|split; [|split]].
      * destruct ws0 as [|w ws0]; simpl; [exact I|]. split; [|exact Hc].
        specialize (Hhd w ws0 eq_refl). pose proof (next_start_le t s e).
        unfold succ_overlaps. rewrite section_overlap_eq in *. simpl. lia.
      * intros w [<-|Hw]; [exact He | exact (Hin w Hw)].
      * intros w ws' Hw. injection Hw as <- _. simpl.
        apply Windows.compute_start_le_succ.
      * intros Hr. right. destruct (Hfin Hr) as [[-> ->] | [ws' [sk [ek [-> ->]]]]].
        -- exists [], s, e. split; reflexivity.
        -- exists ((s, e) :: ws'), sk, ek. split; reflexivity.
    + injection H as <- <- <-. repeat split; try (simpl; tauto).
      intros w ws' Hw. discriminate.
Qed.

(** Claim C4, as the code does it: outside the figure case the start set for
    the next window is [end - section_overlap]; the next iteration's backward
    realignment may then move it one character forward, so each window
    handed to the token splitter is followed by one that starts at least
    [section_overlap - 1] characters before the window ends. *)
Theorem consecutive_windows_overlap (t : text_t) :
  (forall s e,
     ((Z.of_nat (2 * sentence_search_limit) <? rfind (slice s e t) FIGURE_OPEN)%Z
      && (rfind (slice s e t) FIGURE_CLOSE <? rfind (slice s e t) FIGURE_OPEN)%Z)
     = false ->
     next_start t s e = e - section_overlap) /\
  (forall i s1 e1 s2 e2,
     nth_error (fst (section_windows t)) i = Some (s1, e1) ->
     nth_error (fst (section_windows t)) (S i) = Some (s2, e2) ->
     s2 + (section_overlap - 1) <= e1).
Proof.
  split.
  { intros s e H. unfold next_start. rewrite H. reflexivity. }
  intros i s1 e1 s2 e2 H1 H2.
  enough (Hc : chained (fst (section_windows t))).
  { exact (chained_nth _ Hc i (s1, e1) (s2, e2) H1 H2). }
  unfold section_windows.
  destruct (strip_is_empty t); [exact I|].
  destruct (length t <=? max_section_length); [exact I|].
  destruct (windows_loop (S (length t)) t (length t) 0 (length t))
    as [[ws r] [sf ef]] eqn:E.
  apply loop_shape in E as (Hc & Hin & _ & Hfin).
  destruct r; simpl; try exact Hc.
  destruct (Nat.ltb_spec (sf + section_overlap) ef); [|rewrite app_nil_r; exact Hc].
  destruct (Hfin eq_refl) as [[-> [= -> ->]] | [ws' [sk [ek [-> [= -> ->]]]]]];
    [exact I|].
  rewrite <- app_assoc. simpl. apply chained_snoc; [exact Hc|].
  pose proof (next_start_le t sk ek).
  assert (section_overlap < ek) by (apply (Hin (sk, ek)), in_or_app; simpl; auto).
  unfold succ_overlaps. rewrite section_overlap_eq in *. simpl. lia.
Qed.

(** Claim C4 as stated fails: on a 1100-character page whose characters
    901 and 1000 are sentence endings, the first window is [[0, 1001)]; the
    next start is set to [1001 - 100 = 901], a sentence ending, and the
    realignment moves it past it, to 902: the two windows share 99
    characters, fewer than [section_overlap = 100]. *)
Lemma windows_overlap_counterexample :
  fst (section_windows (all_text_of [mkPage (PageNo 0) 0 overlap_text]))
    = [(0, 1001); (902, 1100)] /\
  1001 - 902 < section_overlap.
Proof. split; vm_compute; reflexivity. Qed.

End Overlap.

(** ** Short inputs *)

Module ShortInput.

Lemma find_page_nonempty (pages : list Page) (o : Z) :
  pages <> [] -> exists pn, find_page pages o = Some pn.
Proof.
  induction pages as [|p ps IH]; intros H; [congruence|].
  destruct ps as [|q rest]; [eexists; reflexivity|].
  change (find_page (p :: q :: rest) o) with
    (if ((offset p <=? o) && (o <? offset q))%Z%bool then Some (page_num p)
     else find_page (q :: rest) o).
  destruct (_ && _); [eexists; reflexivity|]. apply IH. discriminate.
Qed.

(** Claim C6: when the joined text is not blank, is at most
    [max_section_length] long and fits the token budget, [split_pages]
    yields exactly one fragment, the whole joined text, tagged with
    [find_page(0)]. *)
Theorem single_fragment count_tokens max_tokens_per_section (pages : list Page) :
  strip_is_empty (all_text_of pages) = false ->
  length (all_text_of pages) <= max_section_length ->
  (Z.of_nat (count_tokens (all_text_of pages)) <= max_tokens_per_section)%Z ->
  exists pn, find_page pages 0%Z = Some pn /\
    split_pages count_tokens max_tokens_per_section pages
    = ([mkSplitPage pn (all_text_of pages)], Finished).
Proof.
  intros Hne Hlen Htok.
  assert (Hp : pages <> []) by (intros ->; discriminate).
  destruct (find_page_nonempty pages 0%Z Hp) as [pn Hpn].
  exists pn. split; [exact Hpn|].
  unfold split_pages, section_windows. rewrite Hne.
  apply Nat.leb_le in Hlen. rewrite Hlen.
  cbn [run_windows]. change (Z.of_nat 0) with 0%Z. rewrite Hpn.
  unfold slice. rewrite Nat.sub_0_r. cbn [skipn]. rewrite firstn_all.
  cbn [split_page_by_max_tokens].
  apply Z.leb_le in Htok. rewrite Htok. reflexivity.
Qed.

Lemma single_fragment_witness :
  (strip_is_empty (all_text_of hello_pages) = false /\
   length (all_text_of hello_pages) <= max_section_length /\
   (Z.of_nat (length (all_text_of hello_pages)) <= 1000)%Z) /\
  (exists pn, find_page hello_pages 0%Z = Some pn /\
     split_pages (@length Z) 1000%Z hello_pages
     = ([mkSplitPage pn (all_text_of hello_pages)], Finished)).
Proof.
  split; [split; [reflexivity | split; [apply Nat.leb_le | apply Z.leb_le]; reflexivity]|].
  apply single_fragment;
    [reflexivity | apply Nat.leb_le; reflexivity | apply Z.leb_le; reflexivity].
Defined.

(** The scenario of the spec: one fragment ["Hello world. Bye now."] on
    page 0. *)
Example hello_scenario :
  split_pages (@length Z) 1000%Z hello_pages
  = ([mkSplitPage (PageNo 0) (cps "Hello world. Bye now.")], Finished).
Proof. vm_compute. reflexivity. Qed.

End ShortInput.

(** ** Fixed-size chunking *)

Module Chunks.

Lemma ceil_facts (n step : nat) :
  0 < step ->
  let c := (n + step - 1) / step in
  n <= c * step /\ (forall j, j * step < n <-> j < c).
Proof.
  intros Hs c.
  pose proof (Nat.div_mod (n + step - 1) step ltac:(lia)) as Hd.
  pose proof (Nat.mod_upper_bound (n + step - 1) step ltac:(lia)) as Hm.
  fold c in Hd, Hm.
  rewrite (Nat.mul_comm step c) in Hd.
  split; [lia|]. intros j. split; intros H.
  - destruct (Nat.lt_ge_cases j c) as [?|Hjc]; [assumption|].
    pose proof (Nat.mul_le_mono_r c j step Hjc). lia.
  - pose proof (Nat.mul_le_mono_r (S j) c step H) as Hm2.
    rewrite Nat.mul_succ_l in Hm2. lia.
Qed.

Lemma ceil_le (n step : nat) : 0 < step -> (n + step - 1) / step <= n.
Proof.
  intros Hs. destruct n as [|n].
  - simpl. rewrite Nat.div_small by lia. lia.
  - apply Nat.Div0.div_le_upper_bound. nia.
Qed.

Definition piece {A} (step : nat) (l : list A) (k : nat) : nat * list A :=
  (k * step, firstn step (skipn (k * step) l)).

Lemma range_chunks_closed {A} (step : nat) (l : list A) :
  0 < step ->
  forall fuel j, (length l + step - 1) / step - j <= fuel ->
  range_chunks fuel step (j * step) l
  = map (piece step l) (seq j ((length l + step - 1) / step - j)).
Proof.
  intros Hs. destruct (ceil_facts (length l) step Hs) as [_ Hc].
  set (c := (length l + step - 1) / step) in *.
  induction fuel as [|f IH]; intros j Hf; cbn [range_chunks].
  - replace (c - j) with 0 by lia. reflexivity.
  - destruct (Nat.ltb_spec (j * step) (length l)) as [Hlt|Hge].
    + apply Hc in Hlt.
      replace (c - j) with (S (c - S j)) by lia. cbn [seq map].
      replace (j * step + step) with (S j * step) by (simpl; lia).
      rewrite IH by lia. reflexivity.
    + assert (~ j < c) by (rewrite <- Hc; lia).
      replace (c - j) with 0 by lia. reflexivity.
Qed.

Lemma chunks_closed {A} (step : nat) (l : list A) :
  0 < step ->
  chunks step l = map (piece step l) (seq 0 ((length l + step - 1) / step)).
Proof.
  intros Hs. unfold chunks.
  change (range_chunks (length l) step 0 l)
    with (range_chunks (length l) step (0 * step) l).
  rewrite range_chunks_closed by (pose proof (ceil_le (length l) step Hs); lia).
  rewrite Nat.sub_0_r. reflexivity.
Qed.

Lemma concat_pieces {A} (step : nat) (l : list A) :
  forall m j, length l <= (j + m) * step ->
  concat (map (fun k => snd (piece step l k)) (seq j m)) = skipn (j * step) l.
Proof.
  induction m as [|m IH]; intros j Hl; cbn [seq map concat].
  - rewrite Nat.add_0_r in Hl. symmetry. apply skipn_all2. exact Hl.
  - rewrite IH by (replace (S j + m) with (j + S m) by lia; exact Hl).
    unfold piece; simpl snd.
    replace (S j * step) with (step + j * step) by (simpl; lia).
    rewrite <- skipn_skipn. apply firstn_skipn.
Qed.

Lemma piece_length {A} (step : nat) (l : list A) (k : nat) :
  length (snd (piece step l k)) = Nat.min step (length l - k * step).
Proof. unfold piece. simpl. rewrite length_firstn, length_skipn. reflexivity. Qed.

End Chunks.

(** ** [SimpleTextSplitter] *)

Module Simple.

(** Claim C7: a blank joined text gives no fragment; a joined text longer
    than [max_object_length] gives [ceil(len / max_object_length)]
    fragments, the consecutive slices [[k * m, k * m + m)] of the text in
    order (they join back to it), each of length [m] but the last, the
    [k]-th tagged with page number [k]; and no fragment is ever longer than
    [max_object_length]. *)
Theorem chunking (m : nat) (pages : list Page) :
  0 < m ->
  (strip_is_empty (all_text_of pages) = true -> simple_split_pages m pages = Some []) /\
  (strip_is_empty (all_text_of pages) = false -> m < length (all_text_of pages) ->
   exists frags, simple_split_pages m pages = Some frags /\
     length frags = (length (all_text_of pages) + m - 1) / m /\
     concat (map sp_text frags) = all_text_of pages /\
     (forall k sp, nth_error frags k = Some sp ->
        sp_page_num sp = PageNo (Z.of_nat k) /\
        sp_text sp = slice (k * m) (k * m + m) (all_text_of pages) /\
        (S k < length frags -> length (sp_text sp) = m))) /\
  (forall frags, simple_split_pages m pages = Some frags ->
     Forall (fun sp => length (sp_text sp) <= m) frags).
Proof.
  intros Hm. set (t := all_text_of pages).
  assert (Hm0 : (m =? 0) = false) by (apply Nat.eqb_neq; lia).
  destruct (Chunks.ceil_facts (length t) m Hm) as [Hcm Hc].
  set (c := (length t + m - 1) / m) in *.
  assert (Hlong : forall frags,
            strip_is_empty t = false -> m < length t ->
            simple_split_pages m pages = Some frags ->
            frags = map (fun k => mkSplitPage (PageNo (Z.of_nat k))
                                     (firstn m (skipn (k * m) t))) (seq 0 c)).
  { intros frags Hne Hlt Hs. unfold simple_split_pages in Hs. fold t in Hs.
    rewrite Hne in Hs. apply Nat.leb_gt in Hlt. rewrite Hlt, Hm0 in Hs.
    injection Hs as <-. rewrite Chunks.chunks_closed by exact Hm. fold c.
    rewrite map_map. apply map_ext. intros k. unfold Chunks.piece.
    rewrite Nat.div_mul by lia. reflexivity. }
  split; [|split].
  - intros He. unfold simple_split_pages. fold t. rewrite He. reflexivity.
  - intros Hne Hlt.
    assert (Hs : exists frags, simple_split_pages m pages = Some frags).
    { unfold simple_split_pages. fold t. rewrite Hne.
      apply Nat.leb_gt in Hlt. rewrite Hlt, Hm0. eexists; reflexivity. }
    destruct Hs as [frags Hs]. exists frags.
    pose proof (Hlong frags Hne Hlt Hs) as ->.
    split; [exact Hs|]. split; [rewrite length_map, length_seq; reflexivity|].
    split.
    + rewrite map_map. cbn [sp_text].
      change (concat (map (fun k => snd (Chunks.piece m t k)) (seq 0 c)) = t).
      rewrite Chunks.concat_pieces by lia. reflexivity.
    + intros k sp Hk. rewrite nth_error_map, nth_error_seq in Hk.
      destruct (Nat.ltb_spec k c) as [Hkc|]; [|discriminate].
      injection Hk as <-. cbn [sp_page_num sp_text].
      split; [reflexivity|]. split.
      * unfold slice. replace (k * m + m - k * m) with m by lia. reflexivity.
      * rewrite length_map, length_seq. intros Hsk.
        change (length (snd (Chunks.piece m t k)) = m).
        rewrite Chunks.piece_length.
        apply Hc in Hsk. rewrite Nat.mul_succ_l in Hsk. lia.
  - intros frags Hs.
    destruct (strip_is_empty t) eqn:He.
    + unfold simple_split_pages in Hs. fold t in Hs. rewrite He in Hs.
      injection Hs as <-. constructor.
    + destruct (Nat.le_gt_cases (length t) m) as [Hle|Hgt].
      * unfold simple_split_pages in Hs. fold t in Hs. rewrite He in Hs.
        apply Nat.leb_le in Hle. rewrite Hle in Hs.
        injection Hs as <-. constructor; [simpl; apply Nat.leb_le; exact Hle | constructor].
      * rewrite (Hlong frags eq_refl Hgt Hs). apply Forall_map, Forall_forall.
        intros k _. cbn [sp_text]. rewrite length_firstn. lia.
Qed.

Lemma chunking_witness :
  0 < 3 /\
  ((strip_is_empty (all_text_of [mkPage (PageNo 7) 0 (cps "abcdefgh")]) = true ->
    simple_split_pages 3 [mkPage (PageNo 7) 0 (cps "abcdefgh")] = Some []) /\
   (strip_is_empty (all_text_of [mkPage (PageNo 7) 0 (cps "abcdefgh")]) = false ->
    3 < length (all_text_of [mkPage (PageNo 7) 0 (cps "abcdefgh")]) ->
    exists frags, simple_split_pages 3 [mkPage (PageNo 7) 0 (cps "abcdefgh")] = Some frags /\
      length frags = (length (all_text_of [mkPage (PageNo 7) 0 (cps "abcdefgh")]) + 3 - 1) / 3 /\
      concat (map sp_text frags) = all_text_of [mkPage (PageNo 7) 0 (cps "abcdefgh")] /\
      (forall k sp, nth_error frags k = Some sp ->
         sp_page_num sp = PageNo (Z.of_nat k) /\
         sp_text sp = slice (k * 3) (k * 3 + 3) (all_text_of [mkPage (PageNo 7) 0 (cps "abcdefgh")]) /\
         (S k < length frags -> length (sp_text sp) = 3))) /\
   (forall frags, simple_split_pages 3 [mkPage (PageNo 7) 0 (cps "abcdefgh")] = Some frags ->
      Forall (fun sp => length (sp_text sp) <= 3) frags)).
Proof.
  split; [lia|]. apply (chunking 3 [mkPage (PageNo 7) 0 (cps "abcdefgh")]). lia.
Defined.

(** Eight characters by three: pieces ["abc"], ["def"], ["gh"] on pages 0, 1, 2. *)
Example chunking_example :
  simple_split_pages 3 [mkPage (PageNo 7) 0 (cps "abcdefgh")]
  = Some [mkSplitPage (PageNo 0) (cps "abc"); mkSplitPage (PageNo 1) (cps "def");
          mkSplitPage (PageNo 2) (cps "gh")].
Proof. reflexivity. Qed.

End Simple.

(** ** [ExcelSplitter] *)

Module Excel.

(** Claim C8: for one sheet page, the data kept are the non-blank rows
    below the header; they are cut into consecutive blocks of 1 to [step]
    (50) rows that join back to them, there are [ceil(n / 50)] blocks for
    [n] such rows, and the sheet gives one fragment per block, in order,
    every one tagged with the sheet page's [page_num]. *)
Theorem sheet_blocks render_table (sp : SheetPage) :
  fst (get_sheet_data (sheet sp))
    = filter (fun row_data => negb (row_is_blank row_data))
        (map (map cell_text) (data_rows (sheet sp))) /\
  exists blocks,
    concat blocks = fst (get_sheet_data (sheet sp)) /\
    Forall (fun b => 1 <= length b <= step) blocks /\
    length blocks = (length (fst (get_sheet_data (sheet sp))) + step - 1) / step /\
    sheet_fragments render_table sp
    = map (fun b => mkSplitPage (sheet_page_num sp)
                      (render_table (snd (get_sheet_data (sheet sp))) b)) blocks.
Proof.
  split; [reflexivity|].
  assert (Hs : 0 < step) by (unfold step; lia).
  set (data := fst (get_sheet_data (sheet sp))).
  set (headers := snd (get_sheet_data (sheet sp))).
  destruct (Chunks.ceil_facts (length data) step Hs) as [Hcm Hc].
  set (c := (length data + step - 1) / step) in *.
  exists (map (fun k => snd (Chunks.piece step data k)) (seq 0 c)).
  split; [|split; [|split]].
  - apply Chunks.concat_pieces. lia.
  - apply Forall_map, Forall_forall. intros k Hk.
    apply in_seq in Hk. rewrite Chunks.piece_length.
    assert (k * step < length data) by (apply Hc; lia). lia.
  - rewrite length_map, length_seq. reflexivity.
  - unfold sheet_fragments.
    replace (get_sheet_data (sheet sp)) with (data, headers) by reflexivity.
    cbv beta iota.
    rewrite Chunks.chunks_closed by exact Hs. fold c.
    rewrite !map_map. apply map_ext. intros k.
    unfold Chunks.piece. cbn [snd].
    f_equal. f_equal.
    unfold normalize_cell. rewrite map_ext with (g := fun x => x) by (intros; apply map_id).
    apply map_id.
Qed.

(** The scenario of the spec: 120 data rows give 3 fragments. *)
Example sheet120_three_fragments render_table :
  length (sheet_fragments render_table (mkSheetPage (SheetName "Sheet1") sheet120)) = 3.
Proof. reflexivity. Qed.

Lemma filter_all_blank (rows : list (list cell)) :
  Forall (fun row => row_is_blank (map cell_text row) = true) rows ->
  filter (fun row_data => negb (row_is_blank row_data)) (map (map cell_text) rows) = [].
Proof.
  induction 1 as [|row rows Hb _ IH]; [reflexivity|].
  simpl. rewrite Hb. exact IH.
Qed.

(** Claim C10: a sheet whose rows below the header are all blank gives no
    fragment (no header-only table). *)
Theorem blank_sheet_no_fragments render_table (sp : SheetPage) :
  Forall (fun row => row_is_blank (map cell_text row) = true) (data_rows (sheet sp)) ->
  sheet_fragments render_table sp = [].
Proof.
  intros H. unfold sheet_fragments, get_sheet_data.
  rewrite filter_all_blank by exact H. reflexivity.
Qed.

Lemma blank_sheet_no_fragments_witness :
  Forall (fun row => row_is_blank (map cell_text row) = true) (data_rows blank_sheet) /\
  sheet_fragments (fun _ _ => []) (mkSheetPage (SheetName "Sheet1") blank_sheet) = [].
Proof.
  split; [repeat constructor|].
  apply blank_sheet_no_fragments. repeat constructor.
Defined.

End Excel.

(** * Further properties of the splitters *)

Module Pieces.

Lemma infix_trans (a b c : text_t) :
  (exists u v, b = u ++ a ++ v) -> (exists u v, c = u ++ b ++ v) ->
  exists u v, c = u ++ a ++ v.
Proof.
  intros [u1 [v1 ->]] [u2 [v2 ->]]. exists (u2 ++ u1), (v1 ++ v2).
  rewrite <- !app_assoc. reflexivity.
Qed.

Lemma prefix_infix (k : nat) (t : text_t) : exists u v, t = u ++ firstn k t ++ v.
Proof. exists [], (skipn k t). rewrite firstn_skipn. reflexivity. Qed.

Lemma suffix_infix (j : nat) (t : text_t) : exists u v, t = u ++ skipn j t ++ v.
Proof. exists (firstn j t), []. rewrite app_nil_r, firstn_skipn. reflexivity. Qed.

Lemma slice_infix (s e : nat) (t : text_t) : exists u v, t = u ++ slice s e t ++ v.
Proof.
  apply infix_trans with (b := skipn s t); [apply prefix_infix | apply suffix_infix].
Qed.

Lemma halves_prefix_suffix (t : text_t) :
  exists j k, j <= k /\ halves t = Some (firstn k t, skipn j t).
Proof.
  unfold halves. destruct (Spiral.split_position_range t) as [sp [-> _]].
  destruct (0 <? sp)%Z.
  - exists (Z.to_nat sp + 1), (Z.to_nat sp + 1). split; [lia | reflexivity].
  - do 2 eexists. split; [|reflexivity]. lia.
Qed.

(** Every fragment is tagged with the page number given, fits the budget
    and is a contiguous piece of the text. *)
Lemma fragment_facts count_tokens max_tokens_per_section :
  forall fuel pn t,
  Forall (fun sp => sp_page_num sp = pn /\
            (Z.of_nat (count_tokens (sp_text sp)) <= max_tokens_per_section)%Z /\
            exists u v, t = u ++ sp_text sp ++ v)
    (fst (split_page_by_max_tokens count_tokens max_tokens_per_section fuel pn t)).
Proof.
  intros fuel pn. induction fuel as [|f IH]; intros t; cbn [split_page_by_max_tokens].
  - constructor.
  - destruct (Z.leb_spec (Z.of_nat (count_tokens t)) max_tokens_per_section) as [Hle|Hgt].
    + constructor; [|constructor]. cbn [sp_page_num sp_text].
      split; [reflexivity|]. split; [exact Hle|]. exists [], []. rewrite app_nil_r. reflexivity.
    + destruct (halves_prefix_suffix t) as [j [k [_ ->]]].
      pose proof (IH (firstn k t)) as Ha.
      destruct (split_page_by_max_tokens count_tokens max_tokens_per_section f pn (firstn k t))
        as [o1 r1].
      assert (Ha' : Forall (fun sp => sp_page_num sp = pn /\
            (Z.of_nat (count_tokens (sp_text sp)) <= max_tokens_per_section)%Z /\
            exists u v, t = u ++ sp_text sp ++ v) o1).
      { eapply Forall_impl; [|exact Ha]. intros sp (H1 & H2 & H3).
        split; [exact H1|]. split; [exact H2|]. eapply infix_trans; [exact H3|].
        apply prefix_infix. }
      destruct r1; try exact Ha'.
      pose proof (IH (skipn j t)) as Hb.
      destruct (split_page_by_max_tokens count_tokens max_tokens_per_section f pn (skipn j t))
        as [o2 r2].
      apply Forall_app. split; [exact Ha'|].
      eapply Forall_impl; [|exact Hb]. intros sp (H1 & H2 & H3).
      split; [exact H1|]. split; [exact H2|]. eapply infix_trans; [exact H3|].
      apply suffix_infix.
Qed.

Lemma find_page_member (pages : list Page) (o : Z) (pn : page_id) :
  find_page pages o = Some pn -> exists p, In p pages /\ page_num p = pn.
Proof.
  induction pages as [|p ps IH]; intros H; [discriminate|].
  destruct ps as [|q rest].
  - injection H as <-. exists p. split; [left|]; reflexivity.
  - change (find_page (p :: q :: rest) o) with
      (if ((offset p <=? o) && (o <? offset q))%Z%bool then Some (page_num p)
       else find_page (q :: rest) o) in H.
    destruct (((offset p <=? o) && (o <? offset q))%Z%bool).
    + injection H as <-. exists p. split; [left|]; reflexivity.
    + destruct (IH H) as [x [Hx Hpx]]. exists x. split; [right|]; assumption.
Qed.

Lemma run_windows_facts count_tokens max_tokens_per_section (pages : list Page) (t : text_t) :
  forall ws,
  Forall (fun sp =>
            (Z.of_nat (count_tokens (sp_text sp)) <= max_tokens_per_section)%Z /\
            (exists u v, t = u ++ sp_text sp ++ v) /\
            exists p, In p pages /\ page_num p = sp_page_num sp)
    (fst (run_windows count_tokens max_tokens_per_section pages t ws)).
Proof.
  induction ws as [|[s e] ws IH]; cbn [run_windows]; [constructor|].
  destruct (find_page pages (Z.of_nat s)) as [pn|] eqn:Ef; [|constructor].
  pose proof (fragment_facts count_tokens max_tokens_per_section
                (S (length (slice s e t))) pn (slice s e t)) as Hf.
  assert (Hf' : Forall (fun sp =>
            (Z.of_nat (count_tokens (sp_text sp)) <= max_tokens_per_section)%Z /\
            (exists u v, t = u ++ sp_text sp ++ v) /\
            exists p, In p pages /\ page_num p = sp_page_num sp)
     (fst (split_page_by_max_tokens count_tokens max_tokens_per_section
             (S (length (slice s e t))) pn (slice s e t)))).
  { eapply Forall_impl; [|exact Hf]. intros sp (H1 & H2 & H3).
    split; [exact H2|]. split; [eapply infix_trans; [exact H3 | apply slice_infix]|].
    rewrite H1. exact (find_page_member pages _ pn Ef). }
  destruct (split_page_by_max_tokens count_tokens max_tokens_per_section
              (S (length (slice s e t))) pn (slice s e t)) as [o r].
  destruct r; try exact Hf'.
  destruct (run_windows count_tokens max_tokens_per_section pages t ws) as [o' r'].
  apply Forall_app. split; [exact Hf' | exact IH].
Qed.

End Pieces.

Module Loop.

Lemma loop_bounds (t : text_t) (len : nat) :
  forall fuel st en ws r fin,
  windows_loop fuel t len st en = (ws, r, fin) -> en <= len ->
  Forall (fun w => fst w < snd w <= len) ws /\ snd fin <= len.
Proof.
  induction fuel as [|f IH]; intros st en ws r fin H Hen; cbn [windows_loop] in H.
  - injection H as <- <- <-. split; [constructor | exact Hen].
  - destruct (Nat.ltb_spec (st + section_overlap) len) as [Hlt|Hge].
    + pose proof (Windows.compute_end_bounds t len st) as (He1 & _ & He3).
      pose proof (Windows.compute_start_le_succ t (compute_end t len st) st) as Hs.
      destruct (windows_loop f t len
                  (next_start t (compute_start t (compute_end t len st) st)
                     (compute_end t len st)) (compute_end t len st))
        as [[ws0 r0] fin0] eqn:E.
      injection H as <- <- <-.
      destruct (IH _ _ _ _ _ E He3) as [Hws Hfin].
      split; [|exact Hfin]. constructor; [|exact Hws]. cbn [fst snd].
      rewrite Overlap.section_overlap_eq in Hlt.
      unfold max_section_length, DEFAULT_SECTION_LENGTH in He1. lia.
    + injection H as <- <- <-. split; [constructor | exact Hen].
Qed.

Lemma rfind_fold_nonneg (p t : text_t) :
  forall l acc, (0 <= acc)%Z ->
  (0 <= fold_left (fun acc i => if is_prefix p (skipn i t) then Z.of_nat i else acc) l acc)%Z.
Proof.
  induction l as [|x l IH]; intros acc Hacc; simpl; [exact Hacc|].
  apply IH. destruct (is_prefix p (skipn x t)); lia.
Qed.

Lemma rfind_fold_hit (p t : text_t) (i : nat) :
  is_prefix p (skipn i t) = true ->
  forall l acc, In i l ->
  (0 <= fold_left (fun acc i => if is_prefix p (skipn i t) then Z.of_nat i else acc) l acc)%Z.
Proof.
  intros Hp. induction l as [|x l IH]; intros acc Hi; [destruct Hi|].
  destruct Hi as [<-|Hi]; simpl.
  - rewrite Hp. apply rfind_fold_nonneg. lia.
  - apply IH. exact Hi.
Qed.

(** A text without ["<figure"] has none in any of its slices. *)
Lemma rfind_slice_none (t : text_t) (s e : nat) :
  rfind t FIGURE_OPEN = (-1)%Z -> rfind (slice s e t) FIGURE_OPEN = (-1)%Z.
Proof.
  intros Ht. unfold rfind at 1.
  destruct (Figure.rfind_fold (slice s e t) FIGURE_OPEN
              (seq 0 (S (length (slice s e t)))) (-1)%Z) as [E|[j [E Hj]]];
    rewrite E; [reflexivity|].
  exfalso. unfold slice in Hj.
  rewrite skipn_firstn_comm, skipn_skipn in Hj.
  apply Figure.is_prefix_firstn in Hj.
  assert (Hlt : j + s < length t).
  { destruct (Nat.lt_ge_cases (j + s) (length t)) as [?|Hge]; [assumption|].
    rewrite skipn_all2 in Hj by exact Hge. discriminate. }
  assert (H0 : (0 <= rfind t FIGURE_OPEN)%Z).
  { unfold rfind. apply (rfind_fold_hit FIGURE_OPEN t (j + s) Hj).
    apply in_seq. lia. }
  lia.
Qed.

Lemma next_start_no_figure (t : text_t) (s e : nat) :
  rfind t FIGURE_OPEN = (-1)%Z -> next_start t s e = e - section_overlap.
Proof.
  intros Ht. unfold next_start. cbv zeta.
  rewrite (rfind_slice_none t s e Ht). reflexivity.
Qed.

(** Without figures every iteration moves [start] at least 900 characters
    forward, or is the last one. *)
Lemma loop_finishes (t : text_t) :
  rfind t FIGURE_OPEN = (-1)%Z ->
  forall fuel st en, length t - st < fuel ->
  snd (fst (windows_loop fuel t (length t) st en)) = Finished.
Proof.
  intros Ht. induction fuel as [|f IH]; intros st en Hf; [lia|].
  cbn [windows_loop].
  destruct (Nat.ltb_spec (st + section_overlap) (length t)) as [Hlt|]; [|reflexivity].
  pose proof (Windows.compute_end_bounds t (length t) st) as (He1 & _ & He3).
  rewrite next_start_no_figure by exact Ht.
  destruct (windows_loop f t (length t) (compute_end t (length t) st - section_overlap)
              (compute_end t (length t) st)) as [[ws r] fin] eqn:E.
  cbn [fst snd].
  rewrite Overlap.section_overlap_eq in *.
  unfold max_section_length, DEFAULT_SECTION_LENGTH in He1.
  destruct (Nat.lt_ge_cases (compute_end t (length t) st) (length t)) as [Hlen|Hlen].
  - pose proof (IH (compute_end t (length t) st - 100) (compute_end t (length t) st))
      as H. rewrite E in H. apply H. lia.
  - destruct f as [|f]; [lia|]. cbn [windows_loop] in E.
    rewrite Overlap.section_overlap_eq in E.
    replace (compute_end t (length t) st - 100 + 100 <? length t) with false in E
      by (symmetry; apply Nat.ltb_ge; lia).
    injection E as _ <- _. reflexivity.
Qed.

Lemma section_windows_finished (t : text_t) :
  rfind t FIGURE_OPEN = (-1)%Z -> snd (section_windows t) = Finished.
Proof.
  intros Ht. unfold section_windows.
  destruct (strip_is_empty t); [reflexivity|].
  destruct (length t <=? max_section_length); [reflexivity|].
  pose proof (loop_finishes t Ht (S (length t)) 0 (length t) ltac:(lia)) as H.
  destruct (windows_loop (S (length t)) t (length t) 0 (length t)) as [[ws r] [s e]].
  cbn [fst snd] in H. subst r. reflexivity.
Qed.

Lemma run_windows_finished count_tokens max_tokens_per_section (pages : list Page) (t : text_t) :
  pages <> [] ->
  (forall u : text_t, length u <= 2 ->
     (Z.of_nat (count_tokens u) <= max_tokens_per_section)%Z) ->
  forall ws, snd (run_windows count_tokens max_tokens_per_section pages t ws) = Finished.
Proof.
  intros Hp Hsmall. induction ws as [|[s e] ws IH]; cbn [run_windows]; [reflexivity|].
  destruct (ShortInput.find_page_nonempty pages (Z.of_nat s) Hp) as [pn ->].
  pose proof (Termination.finishes_when_short_texts_fit count_tokens max_tokens_per_section
                Hsmall (S (length (slice s e t))) pn (slice s e t) ltac:(lia)) as Hf.
  destruct (split_page_by_max_tokens count_tokens max_tokens_per_section
              (S (length (slice s e t))) pn (slice s e t)) as [o r].
  cbn [snd] in Hf. subst r.
  destruct (run_windows count_tokens max_tokens_per_section pages t ws) as [o' r'].
  exact IH.
Qed.

(** If an iteration sends [start] back to itself, the loop emits the same
    window forever. *)
Lemma loop_fixed_point (t : text_t) (len st : nat) :
  st + section_overlap < len ->
  next_start t (compute_start t (compute_end t len st) st) (compute_end t len st) = st ->
  forall fuel en,
  fst (fst (windows_loop fuel t len st en))
    = repeat (compute_start t (compute_end t len st) st, compute_end t len st) fuel /\
  snd (fst (windows_loop fuel t len st en)) = OutOfFuel.
Proof.
  intros Hlt Hfix. induction fuel as [|f IH]; intros en; [split; reflexivity|].
  cbn [windows_loop]. rewrite (proj2 (Nat.ltb_lt _ _) Hlt), Hfix.
  specialize (IH (compute_end t len st)).
  destruct (windows_loop f t len st (compute_end t len st)) as [[ws r] fin].
  cbn [fst snd] in *. destruct IH as [-> ->]. split; reflexivity.
Qed.

End Loop.

Module SentenceSplit.

(** [split_page_by_max_tokens] tags every fragment with the [page_num] it
    was given and yields only contiguous pieces of its text. *)
Theorem split_page_by_max_tokens_pieces count_tokens max_tokens_per_section fuel pn t :
  Forall (fun sp => sp_page_num sp = pn /\ exists u v, t = u ++ sp_text sp ++ v)
    (fst (split_page_by_max_tokens count_tokens max_tokens_per_section fuel pn t)).
Proof.
  eapply Forall_impl; [|apply Pieces.fragment_facts].
  intros sp (H1 & _ & H3). split; assumption.
Qed.

(** The split of lines 112-135 never raises, and the two halves lose no
    character: the first is a prefix [text[:k]], the second a suffix
    [text[j:]] with [j <= k], and dropping the overlap joins them back to
    the text. *)
Theorem halves_cover_text (t : text_t) :
  exists a b j k, halves t = Some (a, b) /\ j <= k /\
    a = firstn k t /\ b = skipn j t /\ a ++ skipn (k - j) b = t.
Proof.
  destruct (Pieces.halves_prefix_suffix t) as [j [k [Hjk Hh]]].
  exists (firstn k t), (skipn j t), j, k.
  split; [exact Hh|]. split; [exact Hjk|]. split; [reflexivity|]. split; [reflexivity|].
  rewrite skipn_skipn. replace (k - j + j) with k by lia. apply firstn_skipn.
Qed.

(** [split_pages] yields nothing, and calls neither [find_page] nor the
    token splitter, when the joined text is blank (also for no pages). *)
Theorem split_pages_blank count_tokens max_tokens_per_section (pages : list Page) :
  strip_is_empty (all_text_of pages) = true ->
  split_pages count_tokens max_tokens_per_section pages = ([], Finished).
Proof.
  intros H. unfold split_pages, section_windows. rewrite H. reflexivity.
Qed.

Lemma split_pages_blank_witness :
  strip_is_empty (all_text_of [mkPage (PageNo 4) 0 (cps "   ")]) = true /\
  split_pages (@length Z) 0%Z [mkPage (PageNo 4) 0 (cps "   ")] = ([], Finished).
Proof.
  split; [reflexivity|]. apply split_pages_blank. reflexivity.
Defined.

(** Every fragment [split_pages] yields, also in a run cut short, fits the
    token budget, is a contiguous piece of the joined text and carries the
    [page_num] of one of the input pages. *)
Theorem split_pages_fragments count_tokens max_tokens_per_section (pages : list Page) :
  Forall (fun sp =>
            (Z.of_nat (count_tokens (sp_text sp)) <= max_tokens_per_section)%Z /\
            (exists u v, all_text_of pages = u ++ sp_text sp ++ v) /\
            exists p, In p pages /\ page_num p = sp_page_num sp)
    (fst (split_pages count_tokens max_tokens_per_section pages)).
Proof.
  unfold split_pages.
  destruct (section_windows (all_text_of pages)) as [ws r].
  pose proof (Pieces.run_windows_facts count_tokens max_tokens_per_section pages
                (all_text_of pages) ws) as H.
  destruct (run_windows count_tokens max_tokens_per_section pages (all_text_of pages) ws)
    as [o r'].
  exact H.
Qed.

(** Every section [all_text[start:end]] handed to the token splitter is a
    non-empty slice inside the text: [start < end <= len(all_text)]. *)
Theorem windows_in_bounds (t : text_t) :
  Forall (fun w => fst w < snd w <= length t) (fst (section_windows t)).
Proof.
  unfold section_windows.
  destruct (strip_is_empty t) eqn:Hb; [constructor|].
  destruct (length t <=? max_section_length) eqn:Hl.
  - constructor; [|constructor]. cbn [fst snd].
    destruct t; [discriminate | simpl; lia].
  - destruct (windows_loop (S (length t)) t (length t) 0 (length t)) as [[ws r] [s e]] eqn:E.
    destruct (Loop.loop_bounds t (length t) _ _ _ _ _ _ E (le_n _)) as [Hws He].
    cbn [snd] in He.
    destruct r; try exact Hws.
    cbn [fst]. apply Forall_app. split; [exact Hws|].
    destruct (Nat.ltb_spec (s + section_overlap) e); constructor; [|constructor].
    cbn [fst snd]. lia.
Qed.

(** When the joined text contains no ["<figure"], the window loop returns;
    if moreover every text of at most two characters fits the budget,
    [split_pages] runs to its end. *)
Theorem split_pages_finish_without_figure count_tokens max_tokens_per_section
  (pages : list Page) :
  rfind (all_text_of pages) FIGURE_OPEN = (-1)%Z ->
  snd (section_windows (all_text_of pages)) = Finished /\
  ((forall u : text_t, length u <= 2 ->
      (Z.of_nat (count_tokens u) <= max_tokens_per_section)%Z) ->
   snd (split_pages count_tokens max_tokens_per_section pages) = Finished).
Proof.
  intros Ht. pose proof (Loop.section_windows_finished _ Ht) as Hw.
  split; [exact Hw|]. intros Hsmall.
  unfold split_pages.
  destruct (section_windows (all_text_of pages)) as [ws r] eqn:Ew.
  cbn [snd] in Hw. subst r.
  destruct pages as [|p ps].
  - cbn in Ew. injection Ew as <-. reflexivity.
  - pose proof (Loop.run_windows_finished count_tokens max_tokens_per_section (p :: ps)
                  (all_text_of (p :: ps)) ltac:(discriminate) Hsmall ws) as Hr.
    destruct (run_windows count_tokens max_tokens_per_section (p :: ps)
                (all_text_of (p :: ps)) ws) as [o r'].
    cbn [snd] in *. subst r'. reflexivity.
Qed.

Lemma split_pages_finish_without_figure_witness :
  rfind (all_text_of [mkPage (PageNo 0) 0 plain_text]) FIGURE_OPEN = (-1)%Z /\
  (forall u : text_t, length u <= 2 -> (Z.of_nat (length u) <= 1000)%Z) /\
  snd (section_windows (all_text_of [mkPage (PageNo 0) 0 plain_text])) = Finished /\
  snd (split_pages (@length Z) 1000%Z [mkPage (PageNo 0) 0 plain_text]) = Finished.
Proof.
  assert (Ht : rfind (all_text_of [mkPage (PageNo 0) 0 plain_text]) FIGURE_OPEN = (-1)%Z)
    by (vm_compute; reflexivity).
  assert (Hs : forall u : text_t, length u <= 2 -> (Z.of_nat (length u) <= 1000)%Z)
    by (intros u Hu; lia).
  destruct (split_pages_finish_without_figure (@length Z) 1000%Z
              [mkPage (PageNo 0) 0 plain_text] Ht) as [H1 H2].
  split; [exact Ht|]. split; [exact Hs|]. split; [exact H1 | exact (H2 Hs)].
Defined.

(** If an iteration of the window loop sets [start] back to the value it
    began with (an unclosed figure starting exactly there, with the window
    realigned more than 200 characters before it), the loop emits the
    same window forever and never returns. *)
Theorem window_loop_repeats (t : text_t) (len st : nat) :
  st + section_overlap < len ->
  next_start t (compute_start t (compute_end t len st) st) (compute_end t len st) = st ->
  forall fuel en,
  fst (fst (windows_loop fuel t len st en))
    = repeat (compute_start t (compute_end t len st) st, compute_end t len st) fuel /\
  snd (fst (windows_loop fuel t len st en)) = OutOfFuel.
Proof.
  exact (Loop.loop_fixed_point t len st).
Qed.

Lemma window_loop_repeats_witness :
  (900 + section_overlap < length loop_text /\
   next_start loop_text
     (compute_start loop_text (compute_end loop_text (length loop_text) 900) 900)
     (compute_end loop_text (length loop_text) 900) = 900) /\
  fst (fst (windows_loop 3 loop_text (length loop_text) 900 (length loop_text)))
    = repeat (compute_start loop_text (compute_end loop_text (length loop_text) 900) 900,
              compute_end loop_text (length loop_text) 900) 3 /\
  snd (fst (windows_loop 3 loop_text (length loop_text) 900 (length loop_text))) = OutOfFuel.
Proof.
  assert (H1 : 900 + section_overlap < length loop_text)
    by (apply Nat.ltb_lt; vm_compute; reflexivity).
  assert (H2 : next_start loop_text
                 (compute_start loop_text (compute_end loop_text (length loop_text) 900) 900)
                 (compute_end loop_text (length loop_text) 900) = 900)
    by (vm_compute; reflexivity).
  split; [split; assumption|].
  exact (window_loop_repeats loop_text (length loop_text) 900 H1 H2 3 (length loop_text)).
Defined.

(** From its start, the loop on [loop_text] emits [(0, 1101)] and then
    [(301, 1500)] again and again: it never returns. *)
Example loop_text_never_finishes :
  forall fuel,
  snd (fst (windows_loop fuel loop_text (length loop_text) 0 (length loop_text)))
  = OutOfFuel.
Proof.
  intros [|f]; [reflexivity|].
  cbn [windows_loop].
  replace (0 + section_overlap <? length loop_text) with true by (vm_compute; reflexivity).
  replace (next_start loop_text
             (compute_start loop_text (compute_end loop_text (length loop_text) 0) 0)
             (compute_end loop_text (length loop_text) 0)) with 900
    by (vm_compute; reflexivity).
  pose proof (Loop.loop_fixed_point loop_text (length loop_text) 900
                ltac:(apply Nat.ltb_lt; vm_compute; reflexivity)
                ltac:(vm_compute; reflexivity) f
                (compute_end loop_text (length loop_text) 0)) as [_ H].
  destruct (windows_loop f loop_text (length loop_text) 900
              (compute_end loop_text (length loop_text) 0)) as [[ws r] fin].
  exact H.
Qed.

End SentenceSplit.

Module PageLookup.

Lemma last_default {A} (l : list A) (d d' : A) : l <> [] -> last l d = last l d'.
Proof.
  induction l as [|a l IH]; intros H; [congruence|].
  destruct l as [|b l]; [reflexivity|].
  cbn [last]. apply IH. discriminate.
Qed.

(** For pages in offset order, an offset before the first page's start is
    attributed to the last page. *)
Theorem find_page_before_first (p : Page) (rest : list Page) (o : Z) :
  offsets_nondecreasing (p :: rest) -> (o < offset p)%Z ->
  find_page (p :: rest) o = Some (page_num (last rest p)).
Proof.
  revert p. induction rest as [|q rest IH]; intros p Hs Ho; [reflexivity|].
  change (find_page (p :: q :: rest) o) with
    (if ((offset p <=? o) && (o <? offset q))%Z%bool then Some (page_num p)
     else find_page (q :: rest) o).
  replace ((offset p <=? o) && (o <? offset q))%Z%bool with false
    by (symmetry; apply andb_false_iff; left; apply Z.leb_gt; exact Ho).
  destruct Hs as [Hpq Hs]. rewrite (IH q Hs ltac:(lia)).
  destruct rest as [|r rest]; [reflexivity|].
  change (last (q :: r :: rest) p) with (last (r :: rest) p).
  f_equal. f_equal. apply last_default. discriminate.
Qed.

Lemma find_page_before_first_witness :
  (offsets_nondecreasing [mkPage (PageNo 1) 5 (cps "abcde"); mkPage (PageNo 2) 10 (cps "fgh")]
   /\ (0 < 5)%Z) /\
  find_page [mkPage (PageNo 1) 5 (cps "abcde"); mkPage (PageNo 2) 10 (cps "fgh")] 0
  = Some (PageNo 2).
Proof.
  assert (Hs : offsets_nondecreasing
                 [mkPage (PageNo 1) 5 (cps "abcde"); mkPage (PageNo 2) 10 (cps "fgh")])
    by (cbn; split; [lia | exact I]).
  split; [split; [exact Hs | lia]|].
  exact (find_page_before_first (mkPage (PageNo 1) 5 (cps "abcde"))
           [mkPage (PageNo 2) 10 (cps "fgh")] 0 Hs ltac:(cbn; lia)).
Defined.

(** [find_page] raises exactly on an empty page list, and otherwise
    returns the [page_num] of one of the pages. *)
Theorem find_page_result (pages : list Page) (o : Z) :
  (find_page pages o = None <-> pages = []) /\
  (forall pn, find_page pages o = Some pn -> exists p, In p pages /\ page_num p = pn).
Proof.
  split; [split|].
  - intros H. destruct pages as [|p ps]; [reflexivity|].
    destruct (ShortInput.find_page_nonempty (p :: ps) o ltac:(discriminate)) as [pn E].
    congruence.
  - intros ->. reflexivity.
  - exact (Pieces.find_page_member pages o).
Qed.

Lemma find_page_result_witness :
  find_page hello_pages 5 = Some (PageNo 0) /\
  exists p, In p hello_pages /\ page_num p = PageNo 0.
Proof.
  assert (E : find_page hello_pages 5 = Some (PageNo 0)) by reflexivity.
  split; [exact E|]. exact (proj2 (find_page_result hello_pages 5) (PageNo 0) E).
Defined.

End PageLookup.

Module SimpleEdge.

(** [SimpleTextSplitter]: a non-blank text of at most [max_object_length]
    characters gives one fragment holding the whole text on page 0,
    whatever the input page numbers; with [max_object_length = 0] every
    non-blank input raises ([range] with step 0). *)
Theorem simple_short_or_zero (m : nat) (pages : list Page) :
  strip_is_empty (all_text_of pages) = false ->
  (length (all_text_of pages) <= m ->
   simple_split_pages m pages = Some [mkSplitPage (PageNo 0) (all_text_of pages)]) /\
  (m = 0 -> simple_split_pages m pages = None).
Proof.
  intros Hne.
  assert (Hlen : 0 < length (all_text_of pages))
    by (destruct (all_text_of pages); [discriminate | simpl; lia]).
  unfold simple_split_pages. cbv zeta. rewrite Hne. split.
  - intros Hle. apply Nat.leb_le in Hle. rewrite Hle. reflexivity.
  - intros ->. replace (length (all_text_of pages) <=? 0) with false
      by (symmetry; apply Nat.leb_gt; exact Hlen).
    reflexivity.
Qed.

Lemma simple_short_or_zero_witness :
  strip_is_empty (all_text_of [mkPage (PageNo 3) 0 (cps "abc")]) = false /\
  simple_split_pages 5 [mkPage (PageNo 3) 0 (cps "abc")]
    = Some [mkSplitPage (PageNo 0) (cps "abc")] /\
  simple_split_pages 0 [mkPage (PageNo 3) 0 (cps "abc")] = None.
Proof.
  assert (H : strip_is_empty (all_text_of [mkPage (PageNo 3) 0 (cps "abc")]) = false)
    by reflexivity.
  split; [exact H|]. split.
  - exact (proj1 (simple_short_or_zero 5 _ H) ltac:(cbn; lia)).
  - exact (proj2 (simple_short_or_zero 0 _ H) eq_refl).
Defined.

End SimpleEdge.

Module Workbook.

Lemma sheet_fragments_shape render_table (sp : SheetPage) :
  length (sheet_fragments render_table sp)
    = (length (fst (get_sheet_data (sheet sp))) + step - 1) / step /\
  Forall (fun x => sp_page_num x = sheet_page_num sp) (sheet_fragments render_table sp).
Proof.
  unfold sheet_fragments.
  destruct (get_sheet_data (sheet sp)) as [data headers]. cbn [fst].
  split.
  - rewrite length_map, Chunks.chunks_closed by (unfold step; lia).
    rewrite length_map, length_seq. reflexivity.
  - apply Forall_forall. intros x Hx. apply in_map_iff in Hx as [[i b] [<- _]].
    reflexivity.
Qed.

(** [ExcelParser.parse] followed by [ExcelSplitter.split_pages]: the
    number of fragments is the sum over the sheets of [ceil(n / 50)] for
    [n] non-blank data rows, and every fragment is named after a sheet of
    the workbook. *)
Theorem excel_workbook_fragments render_table (workbook : list (string * Sheet)) :
  length (excel_split_pages render_table (excel_parse workbook))
  = list_sum (map (fun '(_, s) => (length (fst (get_sheet_data s)) + step - 1) / step)
                workbook) /\
  Forall (fun sp => exists sheet_name s, In (sheet_name, s) workbook /\
                      sp_page_num sp = SheetName sheet_name)
    (excel_split_pages render_table (excel_parse workbook)).
Proof.
  induction workbook as [|[name sh] wb [IH1 IH2]]; [split; [reflexivity | constructor]|].
  change (excel_split_pages render_table (excel_parse ((name, sh) :: wb)))
    with (sheet_fragments render_table (mkSheetPage (SheetName name) sh)
          ++ excel_split_pages render_table (excel_parse wb)).
  destruct (sheet_fragments_shape render_table (mkSheetPage (SheetName name) sh))
    as [Hl Hf].
  cbn [sheet sheet_page_num] in Hl, Hf.
  split.
  - rewrite length_app, Hl, IH1. reflexivity.
  - apply Forall_app. split.
    + eapply Forall_impl; [|exact Hf]. intros x Hx.
      exists name, sh. split; [left; reflexivity | exact Hx].
    + eapply Forall_impl; [|exact IH2]. intros x [n [s [Hin Hx]]].
      exists n, s. split; [right; exact Hin | exact Hx].
Qed.

End Workbook.

Module CleanTable.

Local Open Scope Z_scope.
#[local] Arguments py_in : simpl never.

Lemma forallb_rev (f : char -> bool) (l : text_t) : forallb f (rev l) = forallb f l.
Proof.
  apply Bool.eq_true_iff_eq. rewrite !forallb_forall.
  split; intros H x Hx; apply H.
  - apply in_rev in Hx. exact Hx.
  - apply in_rev in Hx. exact Hx.
Qed.

Lemma lstrip_app_ws (w x : text_t) :
  forallb (fun c => py_in c py_whitespace) w = true -> lstrip (w ++ x) = lstrip x.
Proof.
  induction w as [|c w IH]; simpl; intros H; [reflexivity|].
  apply andb_true_iff in H as [H1 H2]. rewrite H1. exact (IH H2).
Qed.

Lemma lstrip_nil (x : text_t) :
  lstrip x = [] -> forallb (fun c => py_in c py_whitespace) x = true.
Proof.
  induction x as [|c x IH]; simpl; [reflexivity|].
  destruct (py_in c py_whitespace); [exact IH | discriminate].
Qed.

Lemma lstrip_app (x y : text_t) : lstrip x <> [] -> lstrip (x ++ y) = lstrip x ++ y.
Proof.
  induction x as [|c x IH]; simpl; [congruence|].
  destruct (py_in c py_whitespace); [exact IH | reflexivity].
Qed.

Lemma lstrip_cases (x : text_t) :
  lstrip x = [] \/ exists c r, lstrip x = c :: r /\ py_in c py_whitespace = false.
Proof.
  induction x as [|c x IH]; simpl; [left; reflexivity|].
  destruct (py_in c py_whitespace) eqn:E; [exact IH | right; eauto].
Qed.

Lemma lstrip_suffix (x : text_t) : exists u, x = u ++ lstrip x.
Proof.
  induction x as [|c x [u Hu]]; simpl; [exists []; reflexivity|].
  destruct (py_in c py_whitespace); [exists (c :: u); simpl; congruence | exists []; reflexivity].
Qed.

Lemma lstrip_idem (x : text_t) : lstrip (lstrip x) = lstrip x.
Proof.
  destruct (lstrip_cases x) as [-> | [c [r [-> H]]]]; simpl; [reflexivity|].
  rewrite H. reflexivity.
Qed.

Lemma In_lstrip (x : text_t) (a : char) : In a (lstrip x) -> In a x.
Proof.
  induction x as [|c x IH]; simpl; [tauto|].
  destruct (py_in c py_whitespace); auto.
Qed.

Lemma In_strip (x : text_t) (a : char) : In a (strip x) -> In a x.
Proof.
  unfold strip, rstrip. intros H.
  apply in_rev, In_lstrip, in_rev, In_lstrip in H. exact H.
Qed.

Lemma strip_idem (x : text_t) : strip (strip x) = strip x.
Proof.
  unfold strip, rstrip.
  destruct (lstrip_suffix (rev (lstrip x))) as [u Hu].
  assert (Hr : lstrip (rev (lstrip (rev (lstrip x)))) = rev (lstrip (rev (lstrip x)))).
  { destruct (rev (lstrip (rev (lstrip x)))) as [|c r'] eqn:E; [reflexivity|].
    assert (Hd : lstrip x = c :: r' ++ rev u).
    { rewrite <- (rev_involutive (lstrip x)), Hu, rev_app_distr, E. reflexivity. }
    destruct (lstrip_cases x) as [Hx | [c0 [r0 [Hx Hc0]]]]; rewrite Hd in Hx;
      [discriminate|].
    injection Hx as <- _. simpl. rewrite Hc0. reflexivity. }
  rewrite Hr, rev_involutive, lstrip_idem. reflexivity.
Qed.

(** Whitespace around a text does not change its [strip]. *)
Lemma strip_pad (w c w' : text_t) :
  forallb (fun a => py_in a py_whitespace) w = true ->
  forallb (fun a => py_in a py_whitespace) w' = true ->
  strip (w ++ c ++ w') = strip c.
Proof.
  intros Hw Hw'. unfold strip, rstrip. rewrite lstrip_app_ws by exact Hw.
  destruct (lstrip c) as [|a r] eqn:E.
  - apply lstrip_nil in E.
    rewrite lstrip_app_ws by exact E.
    rewrite <- (app_nil_r w'), lstrip_app_ws by exact Hw'. reflexivity.
  - rewrite lstrip_app by (rewrite E; discriminate). rewrite E.
    rewrite rev_app_distr, lstrip_app_ws by (rewrite forallb_rev; exact Hw').
    reflexivity.
Qed.


Lemma split_on_app (sep : char) (x y : text_t) :
  ~ In sep x -> split_on sep (x ++ sep :: y) = x :: split_on sep y.
Proof.
  induction x as [|c x IH]; simpl; intros H; [rewrite Z.eqb_refl; reflexivity|].
  destruct (Z.eqb_spec c sep) as [->|_]; [tauto|].
  rewrite IH by tauto. reflexivity.
Qed.

Lemma split_on_parts (sep : char) (t : text_t) :
  forall p, In p (split_on sep t) -> ~ In sep p /\ forall a, In a p -> In a t.
Proof.
  induction t as [|c t IH]; simpl; intros p Hp.
  - destruct Hp as [<-|[]]. simpl. tauto.
  - destruct (Z.eqb_spec c sep) as [->|Hc].
    + destruct Hp as [<-|Hp]; [simpl; tauto|].
      destruct (IH p Hp) as [H1 H2]. split; [exact H1|]. intros a Ha; right; auto.
    + destruct (split_on sep t) as [|x xs] eqn:E.
      * destruct Hp as [<-|[]]. simpl. split; [intros [H|[]]; congruence|].
        intros a [<-|[]]; left; reflexivity.
      * destruct Hp as [<-|Hp].
        -- destruct (IH x (or_introl eq_refl)) as [H1 H2]. split.
           ++ intros [H|H]; [congruence | tauto].
           ++ intros a [<-|Ha]; [left; reflexivity | right; auto].
        -- destruct (IH p (or_intror Hp)) as [H1 H2]. split; [exact H1|].
           intros a Ha; right; auto.
Qed.

Lemma In_removelast {A} (l : list A) (x : A) : In x (removelast l) -> In x l.
Proof.
  induction l as [|a l IH]; simpl; [tauto|].
  destruct l as [|b l]; [tauto|]. intros [<-|H]; [left; reflexivity | right; auto].
Qed.

Lemma In_inner {A} (l : list A) (x : A) : In x (inner l) -> In x l.
Proof.
  unfold inner. intros H. apply In_removelast in H.
  destruct l as [|a l]; [exact H | right; exact H].
Qed.

Lemma In_join (sep : text_t) (ls : list text_t) (a : char) :
  In a (join sep ls) -> In a sep \/ exists x, In x ls /\ In a x.
Proof.
  induction ls as [|x ls IH]; simpl; [tauto|].
  destruct ls as [|y ls].
  - intros H. right. exists x. simpl. tauto.
  - intros H. apply in_app_or in H as [H|H]; [right; exists x; simpl; tauto|].
    apply in_app_or in H as [H|H]; [left; exact H|].
    destruct (IH H) as [H'|[z [Hz Hz']]]; [left; exact H'|].
    right. exists z. split; [right; exact Hz | exact Hz'].
Qed.

Lemma pad_no_bar (c : text_t) : ~ In 124 c -> ~ In 124 (32 :: c ++ [32]).
Proof.
  intros H [E|E]; [discriminate|].
  apply in_app_or in E as [E|[E|[]]]; [tauto | discriminate].
Qed.

(** The cells of a rebuilt line are found again by [split('|')]. *)
Lemma split_joined (cs : list text_t) :
  cs <> [] -> (forall c, In c cs -> ~ In 124 c) ->
  split_on 124 (32 :: join [32; 124; 32] cs ++ [32; 124])
  = map (fun c => 32 :: c ++ [32]) cs ++ [[]].
Proof.
  induction cs as [|c cs IH]; intros Hne H; [congruence|].
  assert (Hc : ~ In 124 (32 :: c ++ [32])) by (apply pad_no_bar, H; left; reflexivity).
  destruct cs as [|c' cs'].
  - cbn [join].
    replace (32 :: c ++ [32; 124]) with ((32 :: c ++ [32]) ++ 124 :: [])
      by (simpl; rewrite <- app_assoc; reflexivity).
    rewrite split_on_app by exact Hc. reflexivity.
  - change (join [32; 124; 32] (c :: c' :: cs'))
      with (c ++ [32; 124; 32] ++ join [32; 124; 32] (c' :: cs')).
    replace (32 :: (c ++ [32; 124; 32] ++ join [32; 124; 32] (c' :: cs')) ++ [32; 124])
      with ((32 :: c ++ [32]) ++ 124 :: (32 :: join [32; 124; 32] (c' :: cs') ++ [32; 124]))
      by (simpl; rewrite <- !app_assoc; reflexivity).
    rewrite split_on_app by exact Hc.
    rewrite IH by (discriminate || (intros; apply H; right; assumption)).
    reflexivity.
Qed.

Lemma clean_line_twice (line : text_t) : clean_line (clean_line line) = clean_line line.
Proof.
  destruct (is_border_line line) eqn:Hb.
  - unfold clean_line. rewrite !Hb. reflexivity.
  - remember (map strip (inner (split_on 124 line))) as cs eqn:Ecs.
    assert (E : clean_line line = [124; 32] ++ join [32; 124; 32] cs ++ [32; 124])
      by (unfold clean_line; rewrite Hb, Ecs; reflexivity).
    rewrite E.
    assert (Hcs : forall c, In c cs -> strip c = c /\ ~ In 124 c).
    { intros c Hc. rewrite Ecs in Hc. apply in_map_iff in Hc as [p [<- Hp]].
      split; [apply strip_idem|]. intros Hin. apply In_strip in Hin.
      apply In_inner in Hp. exact (proj1 (split_on_parts 124 line p Hp) Hin). }
    destruct cs as [|c cs'].
    + vm_compute. reflexivity.
    + unfold clean_line at 1.
      destruct (is_border_line ([124; 32] ++ join [32; 124; 32] (c :: cs') ++ [32; 124]));
        [reflexivity|].
      cbv zeta.
      change (cps "| ") with [124; 32]. change (cps " | ") with [32; 124; 32].
      change (cps " |") with [32; 124].
      f_equal. f_equal. f_equal.
      change ([124; 32] ++ join [32; 124; 32] (c :: cs') ++ [32; 124])
        with ([] ++ 124 :: (32 :: join [32; 124; 32] (c :: cs') ++ [32; 124])).
      rewrite split_on_app by (intros []).
      rewrite split_joined by (discriminate || (intros; apply Hcs; assumption)).
      unfold inner. cbn [tl]. rewrite removelast_last, map_map.
      rewrite map_ext_in with (g := fun x => x); [apply map_id|].
      intros c0 Hc0.
      change (32 :: c0 ++ [32]) with ([32] ++ c0 ++ [32]).
      rewrite strip_pad by reflexivity. apply Hcs. exact Hc0.
Qed.

Lemma not_break_13 (a : char) : py_in a line_breaks = false -> (a =? 13) = false.
Proof.
  intros H. destruct (Z.eqb_spec a 13) as [->|]; [discriminate | reflexivity].
Qed.

Lemma splitlines_app_nl (l r : text_t) :
  (forall a, In a l -> py_in a line_breaks = false) ->
  splitlines (l ++ 10 :: r) = l :: splitlines r.
Proof.
  induction l as [|a l IH]; intros H; [reflexivity|].
  rewrite <- app_comm_cons. cbn [splitlines].
  assert (Ha : py_in a line_breaks = false) by (apply H; left; reflexivity).
  rewrite (not_break_13 a Ha), Ha, IH by (intros; apply H; right; assumption).
  reflexivity.
Qed.

Lemma splitlines_line (l : text_t) :
  l <> [] -> (forall a, In a l -> py_in a line_breaks = false) -> splitlines l = [l].
Proof.
  induction l as [|a l IH]; intros Hne H; [congruence|].
  assert (Ha : py_in a line_breaks = false) by (apply H; left; reflexivity).
  cbn [splitlines]. rewrite (not_break_13 a Ha), Ha.
  destruct l as [|b l]; [reflexivity|].
  rewrite IH by (discriminate || (intros; apply H; right; assumption)). reflexivity.
Qed.

Lemma splitlines_join (ls : list text_t) :
  Forall (fun l => forall a, In a l -> py_in a line_breaks = false) ls ->
  (forall ls', ls <> ls' ++ [[]]) ->
  splitlines (join [10] ls) = ls.
Proof.
  induction ls as [|l ls IH]; intros HF Hlast; [reflexivity|].
  inversion HF as [|? ? Hl HF']; subst.
  destruct ls as [|l2 ls2].
  - cbn [join]. apply splitlines_line; [|exact Hl].
    intros ->. exact (Hlast [] eq_refl).
  - change (join [10] (l :: l2 :: ls2)) with (l ++ 10 :: join [10] (l2 :: ls2)).
    rewrite splitlines_app_nl by exact Hl.
    rewrite IH; [reflexivity | exact HF'|].
    intros ls' E. apply (Hlast (l :: ls')). rewrite E. reflexivity.
Qed.

Lemma splitlines_parts :
  forall n t, (length t <= n)%nat ->
  forall l, In l (splitlines t) -> forall a, In a l -> py_in a line_breaks = false.
Proof.
  induction n as [|n IH]; intros t Ht l Hl a Ha.
  - destruct t; [destruct Hl | simpl in Ht; lia].
  - destruct t as [|c t]; [destruct Hl|]. cbn [length] in Ht.
    cbn [splitlines] in Hl.
    destruct (c =? 13) eqn:E13.
    + destruct t as [|d t'].
      * destruct Hl as [<-|[]]. destruct Ha.
      * destruct (d =? 10).
        -- destruct Hl as [<-|Hl]; [destruct Ha|].
           apply (IH t') with l; [simpl in Ht; lia | assumption | assumption].
        -- destruct Hl as [<-|Hl]; [destruct Ha|].
           apply (IH (d :: t')) with l; [lia | assumption | assumption].
    + destruct (py_in c line_breaks) eqn:Ec.
      * destruct Hl as [<-|Hl]; [destruct Ha|].
        apply (IH t) with l; [lia | assumption | assumption].
      * destruct (splitlines t) as [|l0 ls] eqn:Es.
        -- destruct Hl as [<-|[]]. destruct Ha as [<-|[]]. exact Ec.
        -- destruct Hl as [<-|Hl].
           ++ destruct Ha as [<-|Ha]; [exact Ec|].
              apply (IH t) with l0; [lia | rewrite Es; left; reflexivity | assumption].
           ++ apply (IH t) with l; [lia | rewrite Es; right; assumption | assumption].
Qed.

Lemma clean_line_chars (l : text_t) (a : char) :
  In a (clean_line l) -> In a l \/ a = 124 \/ a = 32.
Proof.
  unfold clean_line. destruct (is_border_line l); [tauto|]. cbv zeta.
  change (cps "| ") with [124; 32]. change (cps " | ") with [32; 124; 32].
  change (cps " |") with [32; 124].
  intros H. apply in_app_or in H as [H|H]; [destruct H as [<-|[<-|[]]]; tauto|].
  apply in_app_or in H as [H|H]; [|destruct H as [<-|[<-|[]]]; tauto].
  apply In_join in H as [H|[x [Hx Ha]]]; [destruct H as [<-|[<-|[<-|[]]]]; tauto|].
  apply in_map_iff in Hx as [p [<- Hp]]. apply In_inner in Hp.
  left. apply In_strip in Ha. exact (proj2 (split_on_parts 124 l p Hp) a Ha).
Qed.

Lemma clean_line_nil (l : text_t) : clean_line l = [] -> l = [].
Proof.
  unfold clean_line. destruct (is_border_line l); [tauto|]. discriminate.
Qed.

(** The lines of the cleaned table are the cleaned lines of the input. *)
Lemma cleaned_lines (s : text_t) :
  (forall ls', splitlines s <> ls' ++ [[]]) ->
  splitlines (clean_markdown_table s) = map clean_line (splitlines s).
Proof.
  intros Hs. unfold clean_markdown_table. apply splitlines_join.
  - apply Forall_forall. intros l Hl. apply in_map_iff in Hl as [l0 [<- Hl0]].
    intros a Ha. destruct (clean_line_chars l0 a Ha) as [H|[-> | ->]];
      [|reflexivity|reflexivity].
    exact (splitlines_parts (length s) s (le_n _) l0 Hl0 a H).
  - intros ls' E. apply map_eq_app in E as [l1 [l2 [Es [_ E2]]]].
    apply map_eq_cons in E2 as [x [l3 [-> [Hx E3]]]].
    apply map_eq_nil in E3. subst l3.
    apply clean_line_nil in Hx. subst x. exact (Hs l1 Es).
Qed.

(** Cleaning is idempotent on each line, and on a whole table whose last
    line is not empty. *)
Theorem clean_markdown_table_idempotent :
  (forall line, clean_line (clean_line line) = clean_line line) /\
  (forall s, (forall ls', splitlines s <> ls' ++ [[]]) ->
   clean_markdown_table (clean_markdown_table s) = clean_markdown_table s).
Proof.
  split; [exact clean_line_twice|]. intros s Hs.
  unfold clean_markdown_table at 1. rewrite (cleaned_lines s Hs), map_map.
  rewrite map_ext with (g := clean_line) by exact clean_line_twice.
  reflexivity.
Qed.

Lemma grid_table_last_line (ls' : list text_t) : splitlines grid_table <> ls' ++ [[]].
Proof.
  intros E. apply (f_equal (fun l => last l [0])) in E.
  rewrite last_last in E. vm_compute in E. discriminate.
Qed.

Lemma clean_markdown_table_idempotent_witness :
  clean_line (clean_line (cps "|  a  |   b |")) = clean_line (cps "|  a  |   b |") /\
  (forall ls', splitlines grid_table <> ls' ++ [[]]) /\
  clean_markdown_table (clean_markdown_table grid_table) = clean_markdown_table grid_table.
Proof.
  split; [exact (proj1 clean_markdown_table_idempotent (cps "|  a  |   b |"))|].
  split; [exact grid_table_last_line|].
  exact (proj2 clean_markdown_table_idempotent grid_table grid_table_last_line).
Defined.

(** When the table's last line is not empty, the output has as many lines
    as the input, its [i]-th line is the [i]-th input line cleaned, and
    border lines are kept as they are. *)
Theorem clean_markdown_table_lines (s : text_t) :
  (forall ls', splitlines s <> ls' ++ [[]]) ->
  length (splitlines (clean_markdown_table s)) = length (splitlines s) /\
  (forall i l, nth_error (splitlines s) i = Some l ->
     nth_error (splitlines (clean_markdown_table s)) i = Some (clean_line l) /\
     (is_border_line l = true -> clean_line l = l)).
Proof.
  intros Hs. rewrite (cleaned_lines s Hs). split; [apply length_map|].
  intros i l Hi. rewrite nth_error_map, Hi. split; [reflexivity|].
  intros Hb. unfold clean_line. rewrite Hb. reflexivity.
Qed.

Lemma clean_markdown_table_lines_witness :
  (forall ls', splitlines grid_table <> ls' ++ [[]]) /\
  length (splitlines (clean_markdown_table grid_table)) = length (splitlines grid_table) /\
  nth_error (splitlines (clean_markdown_table grid_table)) 1
    = Some (clean_line (cps "|  a  |")).
Proof.
  split; [exact grid_table_last_line|].
  destruct (clean_markdown_table_lines grid_table grid_table_last_line) as [H1 H2].
  split; [exact H1|].
  exact (proj1 (H2 1%nat (cps "|  a  |") ltac:(vm_compute; reflexivity))).
Defined.



End CleanTable.
